(** * lambda/index.js: the storefront request handler

    A shallow embedding of [lambda/index.js] together with the functional
    behaviour of the three libraries it calls (jsonwebtoken, nanoid and the
    DynamoDB DocumentClient), followed by the properties of the login,
    order and item operations and of the dispatcher.

    Conventions of the embedding.
    - A JavaScript value that came out of [JSON.parse] or of the table is a
      [value]; [undefined] is [None] of [option value].
    - A JSON number is carried as its canonical rendering (what [String(n)]
      prints).  The program never computes with them; it only stores them,
      compares them with [===] and prints them.
    - A text that the program only parses ([event.body]) is carried as the
      result of parsing it.
    - A signed token is carried as its claims together with the key that
      signed it (an ideal MAC: a signature made with one key verifies under
      that key only).
    - Every asynchronous function is a computation over the [world]: the
      table, the list of requests sent to the DocumentClient, the clock read
      by [Date.now()], [process.env.SECRET], the random bytes consumed by
      [nanoid] and the verdict of the store on records the model cannot
      judge.  A promise either resolves or rejects; a request runs alone,
      so awaiting is sequencing. *)

From stdpp Require Import base option list strings gmap fin_maps pretty.
From Stdlib Require Import ZArith Ascii String.

Local Open Scope string_scope.
Local Open Scope Z_scope.

(** ** JavaScript values *)

Module JS.

Local Set Warnings "-register-all".
Local Unset Elimination Schemes.

Inductive value : Type :=
| JNull
| JBool (b : bool)
| JNum (literal : string)
| JStr (s : string)
| JArr (items : list value)
| JObj (fields : list (string * value)).

Local Set Elimination Schemes.

(** The errors a promise of this program can reject with. *)
Inductive error : Type :=
| TypeError (message : string)
| SyntaxError (message : string)
| JsonWebTokenError (message : string)
| TokenExpiredError
| NotBeforeError
| MissingRequiredParameter (message : string)
| ValidationException.

(** [o[k]] on an object literal or parsed object: the last definition of a
    key is the one that counts, as in [{a: 1, a: 2}.a] and in
    [JSON.parse]. *)
Fixpoint get_field (k : string) (fields : list (string * value)) : option value :=
  match fields with
  | [] => None
  | (k', v) :: rest =>
      match get_field k rest with
      | Some v' => Some v'
      | None => if String.eqb k k' then Some v else None
      end
  end.

Definition has_field (k : string) (fields : list (string * value)) : bool :=
  match get_field k fields with Some _ => true | None => false end.

(** [o[k] = v]: an existing property keeps its place, a new one goes last. *)
Definition set_prop (k : string) (v : value) (fields : list (string * value))
  : list (string * value) :=
  if has_field k fields
  then map (fun kv => if String.eqb k (fst kv) then (fst kv, v) else kv) fields
  else fields ++ [(k, v)].

(** The own enumerable properties that [...x] copies: the fields of an
    object, the indexed elements of an array, the indexed characters of a
    string, and nothing for [undefined], [null], a boolean or a number. *)
Definition own_props (x : option value) : list (string * value) :=
  match x with
  | Some (JObj fields) => fields
  | Some (JArr items) => imap (fun i v => (pretty i, v)) items
  | Some (JStr s) =>
      imap (fun i c => (pretty i, JStr (String c EmptyString))) (list_ascii_of_string s)
  | _ => []
  end.

(** [{...target, ...source}] for the part that copies [source]. *)
Definition assign (target source : list (string * value)) : list (string * value) :=
  fold_left (fun acc kv => set_prop (fst kv) (snd kv) acc) source target.

(** [x.k] for a property name that is not built into strings or arrays
    ([userId], [password], [id], [action], [data]): reading a property of
    [undefined] or [null] throws, a primitive or an array has none. *)
Definition get_prop (x : option value) (k : string) : error + option value :=
  match x with
  | None => inl (TypeError "Cannot read properties of undefined")
  | Some JNull => inl (TypeError "Cannot read properties of null")
  | Some (JObj fields) => inr (get_field k fields)
  | Some _ => inr None
  end.

(** [a === b] between a value read from the table and a value parsed from
    the request: primitives compare by value, two objects or arrays are
    never the same reference. *)
Definition strict_eq (a b : option value) : bool :=
  match a, b with
  | None, None => true
  | Some JNull, Some JNull => true
  | Some (JBool x), Some (JBool y) => Bool.eqb x y
  | Some (JNum x), Some (JNum y) => String.eqb x y
  | Some (JStr x), Some (JStr y) => String.eqb x y
  | _, _ => false
  end.

(** *** JSON.stringify *)

Definition dquote : string := String (ascii_of_nat 34) EmptyString.
Definition backslash : string := String (ascii_of_nat 92) EmptyString.

Definition hex_digit (n : nat) : ascii :=
  match String.get n "0123456789abcdef" with Some c => c | None => "0"%char end.

Definition escape_char (c : ascii) : string :=
  let n := nat_of_ascii c in
  if Nat.eqb n 34 then backslash +:+ dquote
  else if Nat.eqb n 92 then backslash +:+ backslash
  else if Nat.eqb n 8 then backslash +:+ "b"
  else if Nat.eqb n 9 then backslash +:+ "t"
  else if Nat.eqb n 10 then backslash +:+ "n"
  else if Nat.eqb n 12 then backslash +:+ "f"
  else if Nat.eqb n 13 then backslash +:+ "r"
  else if Nat.ltb n 32
       then backslash +:+ "u00" +:+
            String (hex_digit (Nat.div n 16)) (String (hex_digit (Nat.modulo n 16)) EmptyString)
  else String c EmptyString.

Fixpoint escape (s : string) : string :=
  match s with
  | EmptyString => EmptyString
  | String c rest => escape_char c +:+ escape rest
  end.

Definition quote (s : string) : string := dquote +:+ escape s +:+ dquote.

Fixpoint join (sep : string) (parts : list string) : string :=
  match parts with
  | [] => EmptyString
  | [p] => p
  | p :: rest => p +:+ sep +:+ join sep rest
  end.

(** Properties are printed in the order of the field list. *)
Fixpoint stringify (v : value) : string :=
  match v with
  | JNull => "null"
  | JBool true => "true"
  | JBool false => "false"
  | JNum literal => literal
  | JStr s => quote s
  | JArr items => "[" +:+ join "," (map stringify items) +:+ "]"
  | JObj fields =>
      "{" +:+ join "," (map (fun kv => quote (fst kv) +:+ ":" +:+ stringify (snd kv)) fields)
          +:+ "}"
  end.

End JS.

Export JS.

(** ** The world and the promise monad *)

(** A request sent to the DocumentClient.  A key attribute is whatever the
    caller put there, possibly [undefined]. *)
Record key_params := { key_context : option value; key_id : option value }.

Inductive ddb_request : Type :=
| GetRequest (TableName : string) (Key : key_params)
| PutRequest (TableName : string) (Item : list (string * value))
| UpdateRequest (TableName : string) (Key : key_params) (attribute : string) (v : value)
| QueryRequest (TableName : string) (partition : value)
| DeleteRequest (TableName : string) (Key : option key_params)
                (others : list (string * option value)).

(** [refuses] is the verdict of the store on a record that the model can
    place neither within its limits nor outside them (see
    [DocumentClient.accepts]). *)
Record world := {
  table : gmap (string * string) (list (string * value));
  requests : list ddb_request;
  clock : Z;
  SECRET : option string;
  random : nat -> N;
  pool_offset : nat;
  refuses : list (string * value) -> bool
}.

Definition with_table (t : gmap (string * string) (list (string * value))) (w : world) : world :=
  {| table := t; requests := requests w; clock := clock w; SECRET := SECRET w;
     random := random w; pool_offset := pool_offset w; refuses := refuses w |}.

Definition with_request (r : ddb_request) (w : world) : world :=
  {| table := table w; requests := requests w ++ [r]; clock := clock w; SECRET := SECRET w;
     random := random w; pool_offset := pool_offset w; refuses := refuses w |}.

Definition with_pool_offset (n : nat) (w : world) : world :=
  {| table := table w; requests := requests w; clock := clock w; SECRET := SECRET w;
     random := random w; pool_offset := n; refuses := refuses w |}.

(** The same process observed at another instant. *)
Definition at_time (t : Z) (w : world) : world :=
  {| table := table w; requests := requests w; clock := t; SECRET := SECRET w;
     random := random w; pool_offset := pool_offset w; refuses := refuses w |}.

Inductive outcome (A : Type) : Type :=
| Resolved (a : A)
| Rejected (e : error).
Arguments Resolved {A} a.
Arguments Rejected {A} e.

Definition outcome_map {A B} (f : A -> B) (o : outcome A) : outcome B :=
  match o with
  | Resolved a => Resolved (f a)
  | Rejected e => Rejected e
  end.

#[export] Instance outcome_fmap : FMap outcome := @outcome_map.

Definition M (A : Type) : Type := world -> outcome A * world.

Definition ret {A} (a : A) : M A := fun w => (Resolved a, w).
Definition throw {A} (e : error) : M A := fun w => (Rejected e, w).
Definition bind {A B} (m : M A) (k : A -> M B) : M B :=
  fun w =>
    match m w with
    | (Resolved a, w') => k a w'
    | (Rejected e, w') => (Rejected e, w')
    end.
Definition lift {A} (r : error + A) : M A :=
  match r with inl e => throw e | inr a => ret a end.
Definition read {A} (f : world -> A) : M A := fun w => (Resolved (f w), w).
Definition write (f : world -> world) : M unit := fun w => (Resolved tt, f w).

Notation "'let*' x ':=' m 'in' k" := (bind m (fun x => k))
  (at level 10, x pattern, m at level 100, k at level 200).

(** [Promise.all] over promises that were all started: every computation
    runs, and the first rejection (in list order) is the result. *)
Fixpoint promise_all {A} (ps : list (M A)) : M (list A) :=
  match ps with
  | [] => ret []
  | p :: rest =>
      fun w =>
        match p w with
        | (Resolved a, w1) =>
            match promise_all rest w1 with
            | (Resolved l, w2) => (Resolved (a :: l), w2)
            | (Rejected e, w2) => (Rejected e, w2)
            end
        | (Rejected e, w1) => (Rejected e, snd (promise_all rest w1))
        end
  end.

Definition catch {A} (m : M A) (handle : error -> M A) : M A :=
  fun w =>
    match m w with
    | (Resolved a, w') => (Resolved a, w')
    | (Rejected e, w') => handle e w'
    end.

(** ** jsonwebtoken *)

Module Jwt.

(** The payload of a token, for what the program and the library read of
    it: the registered claims [exp], [nbf] and [iat], each of which a token
    may lack, and [data]. *)
Record claims := { exp : option Z; nbf : option Z; data : option value; iat : option Z }.

(** What can arrive where a token is expected: a text that is not a token,
    or the compact form of [payload] with an HMAC signature made with
    [key].  Unsigned tokens are not part of the model. *)
Inductive credential : Type :=
| Malformed (raw : string)
| Signed (payload : claims) (key : string).

(** [Math.floor(Date.now() / 1000)], the clock of the library. *)
Definition clockTimestamp : M Z := read (fun w => clock w / 1000).

(** [jwt.sign({exp, data}, secretOrPrivateKey)] with the default options:
    HS256 and an [iat] claim. *)
Definition sign (exp : Z) (data : option value) (secretOrPrivateKey : string) : M credential :=
  if String.eqb secretOrPrivateKey ""
  then throw (JsonWebTokenError "secretOrPrivateKey must have a value")
  else
    let* timestamp := clockTimestamp in
    ret (Signed {| exp := Some exp; nbf := None; data := data; iat := Some timestamp |}
           secretOrPrivateKey).

(** The checks of the claims: [payload.nbf > clockTimestamp] and
    [clockTimestamp >= payload.exp], each made only when the claim is
    there. *)
Definition check_claims (payload : claims) (timestamp : Z) : error + claims :=
  match nbf payload with
  | Some n => if timestamp <? n then inl NotBeforeError else
      match exp payload with
      | Some e => if e <=? timestamp then inl TokenExpiredError else inr payload
      | None => inr payload
      end
  | None =>
      match exp payload with
      | Some e => if e <=? timestamp then inl TokenExpiredError else inr payload
      | None => inr payload
      end
  end.

(** [jwt.verify(token, secretOrPublicKey)] without a callback: it throws on
    a missing or malformed token, on a missing key, on a signature that
    does not verify, on a token that is not yet valid and on one that has
    expired. *)
Definition verify (token : option credential) (secretOrPublicKey : option string) : M claims :=
  match token with
  | None => throw (JsonWebTokenError "jwt must be provided")
  | Some (Malformed raw) =>
      if String.eqb raw "" then throw (JsonWebTokenError "jwt must be provided")
      else throw (JsonWebTokenError "jwt malformed")
  | Some (Signed payload key) =>
      match secretOrPublicKey with
      | None => throw (JsonWebTokenError "secret or public key must be provided")
      | Some secret =>
          if String.eqb secret ""
          then throw (JsonWebTokenError "secret or public key must be provided")
          else if String.eqb secret key
          then
            let* timestamp := clockTimestamp in
            lift (check_claims payload timestamp)
          else throw (JsonWebTokenError "invalid signature")
      end
  end.

End Jwt.

(** ** nanoid *)

Module Nanoid.

Definition urlAlphabet : string :=
  "useandom-26T198340PX75pxJACKVERYMINDBUSHWOLF_GQZbfghjklqvwyzrict".

(** [urlAlphabet[byte & 63]] *)
Definition symbol (byte : N) : ascii :=
  match String.get (N.to_nat (N.land byte 63)) urlAlphabet with
  | Some c => c
  | None => "u"%char
  end.

(** The identifier made of the next 21 random bytes, one symbol each. *)
Definition next_id (w : world) : string :=
  let bytes := map (random w) (seq (pool_offset w) 21) in
  string_of_list_ascii (map symbol bytes).

(** [nanoid()] returns it and moves past the bytes it used. *)
Definition nanoid : M string :=
  fun w => (Resolved (next_id w), with_pool_offset (pool_offset w + 21)%nat w).

End Nanoid.

(** ** The DynamoDB DocumentClient *)

(** The table of the deployment behind the five calls the handler makes.
    The service is taken to be reachable; throttling and the paging of
    large results are outside the model.  A request is refused for its key,
    and a record that is put is refused for its content as [accepts]
    says. *)
Module DocumentClient.

(** Modelled from the spec: the key schema of the table, declared in the
    deployment template and not in the handler.  The partition key is
    [context] and the sort key is [id], both strings; as for every string
    key of the service, the empty string is refused. *)
Definition key_string (attribute : option value) : error + string :=
  match attribute with
  | Some (JStr s) =>
      if String.eqb s ""
      then inl ValidationException
      else inr s
  | _ => inl ValidationException
  end.

Definition key_of (Key : key_params) : error + (string * string) :=
  match key_string (key_context Key) with
  | inl e => inl e
  | inr c =>
      match key_string (key_id Key) with
      | inl e => inl e
      | inr i => inr (c, i)
      end
  end.

Definition item_key (Item : list (string * value)) : key_params :=
  {| key_context := get_field "context" Item; key_id := get_field "id" Item |}.

Definition send (r : ddb_request) : M unit := write (with_request r).

(** [ddb.get({TableName, Key}).promise()]; the result is [response.Item]. *)
Definition get (TableName : string) (Key : key_params) : M (option (list (string * value))) :=
  let* _ := send (GetRequest TableName Key) in
  let* k := lift (key_of Key) in
  read (fun w => table w !! k).

(** *** What the service refuses of a record, beyond its key *)

Definition digit_of (c : ascii) : option Z :=
  let n := nat_of_ascii c in
  if Nat.leb 48 n && Nat.leb n 57 then Some (Z.of_nat (n - 48)) else None.

Fixpoint digits_value (digits : string) (acc : Z) : option Z :=
  match digits with
  | EmptyString => Some acc
  | String c rest =>
      match digit_of c with
      | Some d => digits_value rest (10 * acc + d)
      | None => None
      end
  end.

(** The number after the [e] of a rendering such as [1e+200] or [5e-324]. *)
Definition signed_value (text : string) : option Z :=
  match text with
  | EmptyString => None
  | String c rest =>
      if Ascii.eqb c "+"%char then
        match rest with EmptyString => None | _ => digits_value rest 0 end
      else if Ascii.eqb c "-"%char then
        match rest with EmptyString => None | _ => Z.opp <$> digits_value rest 0 end
      else digits_value text 0
  end.

Fixpoint exponent_of (literal : string) : option Z :=
  match literal with
  | EmptyString => None
  | String c rest => if Ascii.eqb c "e"%char then signed_value rest else exponent_of rest
  end.

(** A number of the service lies between 1E-130 and 9.99...E+125 in
    magnitude.  JavaScript renders a number of 1e21 or more, or below
    1e-6, with an exponent, and that exponent tells. *)
Definition out_of_range (literal : string) : bool :=
  match exponent_of literal with
  | Some e => (e <? -130) || (125 <? e)
  | None => false
  end.

Definition number_char (c : ascii) : bool :=
  match digit_of c with
  | Some _ => true
  | None => Ascii.eqb c "-"%char || Ascii.eqb c "+"%char || Ascii.eqb c "."%char
            || Ascii.eqb c "e"%char
  end.

(** A rendering that is plainly a number the service takes: at most 25
    characters, all of them of a number, with an exponent, if any, that
    reads and is in range. *)
Definition plain_number (literal : string) : bool :=
  let chars := list_ascii_of_string literal in
  forallb number_char chars && Nat.leb (String.length literal) 25 &&
  negb (out_of_range literal) &&
  (negb (existsb (Ascii.eqb "e"%char) chars)
   || match exponent_of literal with Some _ => true | None => false end).

Fixpoint numbers_in_range (v : value) : bool :=
  match v with
  | JNum literal => negb (out_of_range literal)
  | JArr items => forallb numbers_in_range items
  | JObj fields => forallb (fun kv => numbers_in_range (snd kv)) fields
  | _ => true
  end.

(** Every number plain and every attribute named. *)
Fixpoint plain_value (v : value) : bool :=
  match v with
  | JNum literal => plain_number literal
  | JArr items => forallb plain_value items
  | JObj fields =>
      forallb (fun kv => negb (String.eqb (fst kv) "") && plain_value (snd kv)) fields
  | _ => true
  end.

Fixpoint depth (v : value) : nat :=
  match v with
  | JArr items => S (fold_right Nat.max 0%nat (map depth items))
  | JObj fields => S (fold_right Nat.max 0%nat (map (fun kv => depth (snd kv)) fields))
  | _ => 0%nat
  end.

Definition short_key (attribute : option value) : bool :=
  match attribute with
  | Some (JStr s) => Nat.leb (String.length s) 1024
  | _ => true
  end.

(** A record that is well within every limit of the service: plain
    numbers, named attributes, nesting of at most 16 levels, a JSON text of
    at most 100000 characters (the service allows 400 KB for an item, and
    counts no more than twice the text), key attributes of at most 1024
    characters. *)
Definition within_limits (Item : list (string * value)) : bool :=
  plain_value (JObj Item) && Nat.leb (depth (JObj Item)) 16 &&
  (Z.of_nat (String.length (stringify (JObj Item))) <=? 100000) &&
  short_key (get_field "context" Item) && short_key (get_field "id" Item).

(** Whether the service takes a record whose key is acceptable.  It takes
    one that is [within_limits] and refuses one that holds a number outside
    its range; for any other record (a very large or very deep one, an
    attribute without a name) the answer is [refuses], the service's own
    accounting, which the model leaves open. *)
Definition accepts (refuses : list (string * value) -> bool)
    (Item : list (string * value)) : bool :=
  within_limits Item || (numbers_in_range (JObj Item) && negb (refuses Item)).

(** [ddb.put({TableName, Item}).promise()]: the item, when the service takes
    it, replaces whatever its key held. *)
Definition put (TableName : string) (Item : list (string * value)) : M unit :=
  let* _ := send (PutRequest TableName Item) in
  let* k := lift (key_of (item_key Item)) in
  let* taken := read (fun w => accepts (refuses w) Item) in
  if taken : bool
  then write (fun w => with_table (<[k := Item]> (table w)) w)
  else throw ValidationException.

(** The item an update leaves under key [k]: the attribute is set on the
    item found there, and where there is none the service makes one out of
    the key and the attribute. *)
Definition updated (k : string * string) (attribute : string) (v : value)
    (found : option (list (string * value))) : list (string * value) :=
  match found with
  | Some Item => set_prop attribute v Item
  | None => [("context", JStr (fst k)); ("id", JStr (snd k)); (attribute, v)]
  end.

(** [ddb.update({TableName, Key, UpdateExpression: "set <attribute> = :c",
    ExpressionAttributeValues: {":c": v}}).promise()], with no
    [ConditionExpression]. *)
Definition update (TableName : string) (Key : key_params) (attribute : string) (v : value)
  : M unit :=
  let* _ := send (UpdateRequest TableName Key attribute v) in
  let* k := lift (key_of Key) in
  write (fun w => with_table (<[k := updated k attribute v (table w !! k)]> (table w)) w).

(** [ddb.query({TableName, KeyConditionExpression: "context = :i",
    ExpressionAttributeValues: {":i": partition}}).promise()]; the result is
    [response.Items].  The order of the items is the order of the map. *)
Definition query (TableName : string) (partition : value) : M (list (list (string * value))) :=
  let* _ := send (QueryRequest TableName partition) in
  let* c := lift (key_string (Some partition)) in
  read (fun w =>
          map snd (filter (fun entry => fst (fst entry) = c) (map_to_list (table w)))).

(** [ddb.delete(params).promise()], where [others] are the members of
    [params] beside [TableName] and [Key].  The client keeps the members
    the operation knows, so [others] play no part, and validates before it
    sends anything: [Key] is required, and a request without it is
    rejected.  A request that passes removes the item. *)
Definition delete (TableName : string) (Key : option key_params)
    (others : list (string * option value)) : M unit :=
  let* _ := send (DeleteRequest TableName Key others) in
  match Key with
  | None => throw (MissingRequiredParameter "Missing required key 'Key' in params")
  | Some Key =>
      let* k := lift (key_of Key) in
      write (fun w => with_table (base.delete k (table w)) w)
  end.

End DocumentClient.

(** ** index.js *)

Definition TABLE_NAME : string := "EcommerceData".

(** The object [{ token }]. *)
Record token_object := { token : Jwt.credential }.

(** What a handler's promise resolves to. *)
Inductive reply : Type :=
| Undefined
| Json (v : value)
| WithToken (o : token_object).

(** [process.env.SECRET || "SECRET"]: an unset or empty variable is falsy. *)
Definition secret_or_default (secret : option string) : string :=
  match secret with
  | Some s => if String.eqb s "" then "SECRET" else s
  | None => "SECRET"
  end.

Definition createToken (info : option value) : M token_object :=
  let* seconds := read (fun w => clock w / 1000) in
  let* secret := read SECRET in
  let* token := Jwt.sign (seconds + 86400) info (secret_or_default secret) in
  ret {| token := token |}.

Definition checkToken (token : option Jwt.credential) : M (option value) :=
  catch
    (let* secret := read SECRET in
     let* payload := Jwt.verify token secret in
     ret (Jwt.data payload))
    (fun e => ret (Some (JObj []))).

(** The text of [event.body], carried as what [JSON.parse] makes of it. *)
Inductive body_text : Type :=
| Unparseable
| Parses (v : value).

Record raw_headers := {
  Authorization : option Jwt.credential;
  x_api_key : option string;
  User_Agent : option string
}.

(** The proxy event.  [body] is [None] for a missing, null or empty body;
    [sourceIp] is [event.requestContext?.identity?.sourceIp]. *)
Module Event.
Record proxy_event := {
  body : option body_text;
  queryStringParameters : option value;
  path : option string;
  httpMethod : option string;
  sourceIp : option string;
  headers : option raw_headers
}.
End Event.
Abbreviation proxy_event := Event.proxy_event.

(** What [extractEventDetails] makes of it. *)
Module Details.
Record event_details := {
  body : value;
  query : value;
  path : option string;
  method : option string;
  source : option string;
  user : option value;
  apiKey : option string;
  userAgent : option string
}.
End Details.
Abbreviation event_details := Details.event_details.

Definition JSON_parse (text : body_text) : M value :=
  match text with
  | Unparseable => throw (SyntaxError "Unexpected token in JSON")
  | Parses v => ret v
  end.

Definition extractEventDetails (event : proxy_event) : M event_details :=
  let* body :=
    match Event.body event with
    | Some text => JSON_parse text
    | None => ret (JObj [])
    end in
  let query :=
    match Event.queryStringParameters event with
    | Some q => q
    | None => JObj []
    end in
  let* user := checkToken (h ← Event.headers event; Authorization h) in
  let* headers :=
    match Event.headers event with
    | Some h => ret h
    | None => throw (TypeError "Cannot read properties of undefined (reading 'x-api-key')")
    end in
  ret {| Details.body := body; Details.query := query; Details.path := Event.path event;
         Details.method := Event.httpMethod event; Details.source := Event.sourceIp event;
         Details.user := user; Details.apiKey := x_api_key headers;
         Details.userAgent := User_Agent headers |}.

(** The body of a response: [JSON.stringify] of the reply.  The text of a
    [{ token }] object is carried as the object. *)
Inductive response_body : Type :=
| NoBody
| Text (s : string)
| TokenText (o : token_object).

Definition JSON_stringify (r : reply) : response_body :=
  match r with
  | Undefined => NoBody
  | Json v => Text (stringify v)
  | WithToken o => TokenText o
  end.

Module Response.
Record envelope := {
  statusCode : Z;
  headers : list (string * string);
  body : response_body
}.
End Response.
Abbreviation envelope := Response.envelope.

Definition respond (response : M reply) : M envelope :=
  let* awaited := response in
  ret {| Response.statusCode := 200;
         Response.headers :=
           [("Access-Control-Allow-Headers", "*");
            ("Access-Control-Allow-Origin", "*");
            ("Access-Control-Allow-Methods", "*")];
         Response.body := JSON_stringify awaited |}.

Definition login (data : option value) : M reply :=
  let* userId := lift (get_prop data "userId") in
  let* Item := DocumentClient.get TABLE_NAME
                 {| key_context := Some (JStr "user"); key_id := userId |} in
  match Item with
  | Some Item =>
      let* password := lift (get_prop data "password") in
      if strict_eq (get_field "password" Item) password
      then let* t := createToken (get_field "info" Item) in ret (WithToken t)
      else ret Undefined
  | None => ret Undefined
  end.

Definition success : reply := Json (JObj [("success", JBool true)]).

(** [{ context: "order", id: nanoid(), ...data, orderStatus: "OPEN" }] *)
Definition order_of (id : string) (data : option value) : list (string * value) :=
  set_prop "orderStatus" (JStr "OPEN")
    (assign [("context", JStr "order"); ("id", JStr id)] (own_props data)).

Definition createOrder (data : option value) : M reply :=
  let* id := Nanoid.nanoid in
  let order := order_of id data in
  let* _ := DocumentClient.put TABLE_NAME order in
  ret success.

Definition completeOrder (data : option value) : M reply :=
  let* id := lift (get_prop data "id") in
  let* _ := DocumentClient.update TABLE_NAME
              {| key_context := Some (JStr "order"); key_id := id |}
              "orderStatus" (JStr "CLOSED") in
  ret success.

Definition reopenOrder (data : option value) : M reply :=
  let* id := lift (get_prop data "id") in
  let* _ := DocumentClient.update TABLE_NAME
              {| key_context := Some (JStr "order"); key_id := id |}
              "orderStatus" (JStr "OPEN") in
  ret success.

Definition getItemList (data : option value) : M reply :=
  let* Items := DocumentClient.query TABLE_NAME (JStr "item") in
  ret (Json (JArr (map JObj Items))).

Definition getOrderList (data : option value) : M reply :=
  let* Items := DocumentClient.query TABLE_NAME (JStr "order") in
  ret (Json (JArr (map JObj Items))).

(** [{ context: "item", id: nanoid(), ...data }] *)
Definition item_of (id : string) (data : option value) : list (string * value) :=
  assign [("context", JStr "item"); ("id", JStr id)] (own_props data).

Definition addItem (data : option value) : M reply :=
  let* id := Nanoid.nanoid in
  let item := item_of id data in
  let* _ := DocumentClient.put TABLE_NAME item in
  ret Undefined.

(** The request carries [context] and [id] beside [TableName], and no
    [Key]. *)
Definition removeItem (data : option value) : M reply :=
  let* id := lift (get_prop data "id") in
  let* _ := DocumentClient.delete TABLE_NAME None
              [("context", Some (JStr "item")); ("id", id)] in
  ret Undefined.

Definition seed_item (id image title : string) : list (string * value) :=
  [("context", JStr "item"); ("id", JStr id); ("image", JStr image); ("price", JNum "10");
   ("title", JStr title); ("description", JStr "")].

Definition seed_order (id title buyerName buyerAddress : string) : list (string * value) :=
  [("context", JStr "order"); ("id", JStr id); ("orderStatus", JStr "OPEN");
   ("price", JNum "10"); ("title", JStr title); ("buyerName", JStr buyerName);
   ("buyerAddress", JStr buyerAddress)].

Definition seed_items : list (list (string * value)) :=
  [ seed_item "1" "images/product01.jpg" "Tank Top";
    seed_item "2" "images/product02.jpg" "Polo-Shirt";
    seed_item "3" "images/product03.jpg" "T-Shirt";
    [("context", JStr "user"); ("id", JStr "admin");
     ("password", JStr "cac28395540089e505a68311833c2cb5a92f84f4")];
    seed_order "1" "Tank Top" "Mark Zucherberg"
      "1 Hacker Way, Menlo Park, 94025 CA, United States of America.";
    seed_order "2" "Polo-Shirt" "Sundar Pitchai"
      "1600 Amphitheatre Parkway, Mountain View, CA 94043";
    seed_order "3" "T-Shirt" "Andy Jassy"
      "410 Terry Ave N, Seattle, Washington 98109, US" ].

Definition init : M reply :=
  let pList := map (fun i => DocumentClient.put "EcommerceData" i) seed_items in
  let* _ := promise_all pList in
  ret Undefined.

(** [const { action, data } = event.body]: destructuring [null] throws. *)
Definition destructure (body : value) : M (option value * option value) :=
  let* action := lift (get_prop (Some body) "action") in
  let* data := lift (get_prop (Some body) "data") in
  ret (action, data).

(** The [switch]: the case an action selects, if any. *)
Definition case_of (action : option value) : option (option value -> M reply) :=
  match action with
  | Some (JStr a) =>
      if String.eqb a "INIT" then Some (fun _ => init)
      else if String.eqb a "LOGIN" then Some login
      else if String.eqb a "ADD_ORDER" then Some createOrder
      else if String.eqb a "ORDER_LIST" then Some getOrderList
      else if String.eqb a "COMPLETE_ORDER" then Some completeOrder
      else if String.eqb a "REOPEN_ORDER" then Some reopenOrder
      else if String.eqb a "ITEM_LIST" then Some getItemList
      else if String.eqb a "ADD_ITEM" then Some addItem
      else if String.eqb a "REMOVE_ITEM" then Some removeItem
      else None
  | _ => None
  end.

Definition handler (event : proxy_event) : M envelope :=
  let* event := extractEventDetails event in
  let* (action, data) := destructure (Details.body event) in
  match case_of action with
  | Some operation => respond (operation data)
  | None => respond (ret (Json (JObj [])))
  end.

(** * Notions the properties are stated with *)

(** ** Invariants *)

(** A computation keeps [P] when the world it leaves satisfies [P]
    whenever the world it started in did, whether it resolves or rejects. *)
Definition preserves {A} (P : world -> Prop) (m : M A) : Prop :=
  forall w, P w -> P (snd (m w)).

(** The keys of a table the service accepted every write of: no empty
    string in a key. *)
Definition valid_keys (t : gmap (string * string) (list (string * value))) : Prop :=
  forall c i Item, t !! (c, i) = Some Item -> c <> "" /\ i <> "".

Definition keys_ok (w : world) : Prop := valid_keys (table w).

(** ** Orders *)

Definition orderStatus_of (id : string) (w : world) : option value :=
  Item ← table w !! ("order", id); get_field "orderStatus" Item.

(** The body [completeOrder] and [reopenOrder] share. *)
Definition set_orderStatus (status : string) (data : option value) : M reply :=
  let* id := lift (get_prop data "id") in
  let* _ := DocumentClient.update TABLE_NAME
              {| key_context := Some (JStr "order"); key_id := id |}
              "orderStatus" (JStr status) in
  ret success.

(** ** Tokens and users *)

Definition empty_identity : option value := Some (JObj []).

(** The token [createToken] issues in [w]. *)
Definition issued (info : option value) (w : world) : token_object :=
  {| token := Jwt.Signed {| Jwt.exp := Some (clock w / 1000 + 86400);
                            Jwt.nbf := None;
                            Jwt.data := info;
                            Jwt.iat := Some (clock w / 1000) |}
                         (secret_or_default (SECRET w)) |}.

(** The instant, in milliseconds, at which a token issued in [w] expires:
    the start of the second that comes 86400 seconds after the second of
    issuance. *)
Definition expiry_ms (w : world) : Z := (clock w / 1000 + 86400) * 1000.

Definition user_key (userId : option value) : key_params :=
  {| key_context := Some (JStr "user"); key_id := userId |}.

(** ** The dispatcher *)

(** The actions the [switch] has a case for. *)
Definition recognized_actions : list string :=
  ["INIT"; "LOGIN"; "ADD_ORDER"; "ORDER_LIST"; "COMPLETE_ORDER"; "REOPEN_ORDER";
   "ITEM_LIST"; "ADD_ITEM"; "REMOVE_ITEM"].

Definition cors_headers : list (string * string) :=
  [("Access-Control-Allow-Headers", "*");
   ("Access-Control-Allow-Origin", "*");
   ("Access-Control-Allow-Methods", "*")].

Definition empty_object_envelope : envelope :=
  {| Response.statusCode := 200;
     Response.headers := cors_headers;
     Response.body := Text "{}" |}.

(** ** Sample worlds, records and events *)

(** A process with an empty table, [SECRET] set to ["s3cret"], at one and a
    half seconds after the epoch. *)
Definition fresh_world : world :=
  {| table := ∅; requests := []; clock := 1500; SECRET := Some "s3cret";
     random := N.of_nat; pool_offset := 0; refuses := fun _ => false |}.

(** The same process started without [SECRET]. *)
Definition unconfigured_world : world :=
  {| table := ∅; requests := []; clock := 1500; SECRET := None;
     random := N.of_nat; pool_offset := 0; refuses := fun _ => false |}.

Definition plain_headers : raw_headers :=
  {| Authorization := None; x_api_key := None; User_Agent := Some "curl/8.0" |}.

(** A POST whose body parses to [{ action, data }]. *)
Definition post (action : string) (data : value) : proxy_event :=
  {| Event.body := Some (Parses (JObj [("action", JStr action); ("data", data)]));
     Event.queryStringParameters := None; Event.path := Some "/v1/hello";
     Event.httpMethod := Some "POST"; Event.sourceIp := Some "203.0.113.7";
     Event.headers := Some plain_headers |}.

(** A stored user with profile information, and a login with the right
    password. *)
Definition alice : list (string * value) :=
  [("context", JStr "user"); ("id", JStr "alice");
   ("password", JStr "5baa61e4c9b93f3f0682250b6cf8331b7ee68fd8");
   ("info", JObj [("name", JStr "Alice"); ("role", JStr "admin")])].

Definition alice_login : option value :=
  Some (JObj [("userId", JStr "alice");
              ("password", JStr "5baa61e4c9b93f3f0682250b6cf8331b7ee68fd8")]).


(** ** Five requirements the code does not meet, as predicates *)



(** The claim C4 makes of one invocation: it ends with an envelope. *)
Definition answers_with_envelope (event : proxy_event) (w : world) : Prop :=
  exists response, fst (handler event w) = Resolved response.

(** The claim C5 makes of one run of ADD_ORDER: the record handed to the
    store carries the generated identifier and context ["order"]. *)
Definition writes_generated_key (data : option value) (w : world) : Prop :=
  forall order,
    requests (snd (createOrder data w)) = (requests w ++ [PutRequest TABLE_NAME order])%list ->
    get_field "id" order = Some (JStr (Nanoid.next_id w)) /\
    get_field "context" order = Some (JStr "order").

(** The claim C7 makes of a token issued in [w] and checked at instant [t]
    by the same process: it verifies before T+24h and is refused from
    T+24h on. *)
Definition verifies_for_24h (info : option value) (w : world) (t : Z) : Prop :=
  forall o,
    fst (createToken info w) = Resolved o ->
    (t < clock w + 86400000 ->
       fst (checkToken (Some (token o)) (at_time t w)) = Resolved info) /\
    (clock w + 86400000 <= t ->
       fst (checkToken (Some (token o)) (at_time t w)) = Resolved empty_identity).

(** ** Notions of the further properties *)

(** Every record of the table carries its own key: its [context] and [id]
    attributes are the two strings it is stored under, neither empty. *)
Definition records_keyed (t : gmap (string * string) (list (string * value))) : Prop :=
  forall c i Item,
    t !! (c, i) = Some Item ->
    get_field "context" Item = Some (JStr c) /\ get_field "id" Item = Some (JStr i) /\
    c <> "" /\ i <> "".

(** The key a seeded record is written under. *)
Definition seed_key (Item : list (string * value)) : string * string :=
  match get_field "context" Item, get_field "id" Item with
  | Some (JStr c), Some (JStr i) => (c, i)
  | _, _ => ("", "")
  end.

(** Writing the records of [l] one after the other, each under its key. *)
Definition seed (t : gmap (string * string) (list (string * value)))
    (l : list (list (string * value))) : gmap (string * string) (list (string * value)) :=
  foldl (fun t Item => <[seed_key Item := Item]> t) t l.

(** The table after INIT on an empty one. *)
Definition seeded_world : world := snd (init fresh_world).

(** The envelope of a LOGIN that is refused: no body. *)
Definition bodiless_envelope : envelope :=
  {| Response.statusCode := 200; Response.headers := cors_headers;
     Response.body := NoBody |}.

(** An order as ADD_ORDER makes it, and a world that holds it. *)
Definition open_order : list (string * value) :=
  [("context", JStr "order"); ("id", JStr "o-1"); ("title", JStr "T-Shirt");
   ("price", JNum "10"); ("orderStatus", JStr "OPEN")].

Definition one_order_world : world :=
  with_table {[ ("order", "o-1") := open_order ]} fresh_world.

(** A configured process whose table holds [alice]. *)
Definition alice_world : world :=
  with_table {[ ("user", "alice") := alice ]} fresh_world.

(** A stored user that has no [password] attribute. *)
Definition guest : list (string * value) :=
  [("context", JStr "user"); ("id", JStr "guest"); ("info", JObj [("name", JStr "Guest")])].

(** * Properties *)

(** ** Object fields *)

Section Fields.

Implicit Types (k : string) (v : value) (fields : list (string * value)).

Lemma get_field_app k fields more :
  get_field k (fields ++ more) =
  match get_field k more with
  | Some v => Some v
  | None => get_field k fields
  end.
Proof.
  induction fields as [|[k' v'] rest IH]; simpl.
  - by destruct (get_field k more).
  - rewrite IH. by destruct (get_field k more).
Qed.

Lemma get_field_replace k k' v fields :
  get_field k' (map (fun kv => if String.eqb k (fst kv) then (fst kv, v) else kv) fields) =
  if String.eqb k k'
  then match get_field k' fields with Some _ => Some v | None => None end
  else get_field k' fields.
Proof.
  induction fields as [|[k1 v1] rest IH]; simpl.
  - by destruct (String.eqb k k').
  - destruct (String.eqb_spec k k1); simpl; rewrite IH;
      destruct (String.eqb_spec k k'); destruct (get_field k' rest);
      destruct (String.eqb_spec k' k1); congruence.
Qed.

Lemma get_field_set_prop_eq k v fields : get_field k (set_prop k v fields) = Some v.
Proof.
  unfold set_prop, has_field. destruct (get_field k fields) eqn:Hget.
  - by rewrite get_field_replace, String.eqb_refl, Hget.
  - rewrite get_field_app. simpl. by rewrite String.eqb_refl.
Qed.

Lemma get_field_set_prop_ne k k' v fields :
  k <> k' -> get_field k' (set_prop k v fields) = get_field k' fields.
Proof.
  intros Hne. unfold set_prop.
  assert (String.eqb k k' = false) as Hf by by apply String.eqb_neq.
  destruct (has_field k fields).
  - by rewrite get_field_replace, Hf.
  - rewrite get_field_app. simpl. rewrite String.eqb_sym in Hf. by rewrite Hf.
Qed.

Lemma get_field_set_prop k k' v fields :
  get_field k' (set_prop k v fields) =
  if String.eqb k' k then Some v else get_field k' fields.
Proof.
  destruct (String.eqb k' k) eqn:Hk.
  - apply String.eqb_eq in Hk. subst. apply get_field_set_prop_eq.
  - apply String.eqb_neq in Hk. by apply get_field_set_prop_ne.
Qed.

(** After [{...target, ...source}] a property has the value [source] gives
    it, and where [source] has none the value [target] gave it. *)
Lemma get_field_assign k target source :
  get_field k (assign target source) =
  match get_field k source with
  | Some v => Some v
  | None => get_field k target
  end.
Proof.
  unfold assign. revert target.
  induction source as [|[k1 v1] rest IH]; intros target;
    cbn [fold_left get_field fst snd]; [done|].
  rewrite IH. destruct (get_field k rest); [done|].
  rewrite get_field_set_prop. by destruct (String.eqb k k1).
Qed.

Lemma map_replace_absent k v fields :
  get_field k fields = None ->
  map (fun kv => if String.eqb k (fst kv) then (fst kv, v) else kv) fields = fields.
Proof.
  induction fields as [|[k1 v1] rest IH]; simpl; [done|].
  destruct (get_field k rest); [done|].
  destruct (String.eqb k k1); [done|].
  intros _. by rewrite IH.
Qed.

(** Setting a property twice to the same value is setting it once. *)
Lemma set_prop_idempotent k v fields :
  set_prop k v (set_prop k v fields) = set_prop k v fields.
Proof.
  unfold set_prop at 1. unfold has_field. rewrite get_field_set_prop_eq.
  unfold set_prop, has_field. destruct (get_field k fields) eqn:Hget.
  - rewrite map_map. apply map_ext. intros [k1 v1]. simpl.
    destruct (String.eqb k k1) eqn:Hk; simpl; by rewrite Hk.
  - rewrite map_app. simpl. rewrite String.eqb_refl.
    by rewrite map_replace_absent.
Qed.

End Fields.

(** ** What every operation keeps *)

Section Preserves.

Context {A B : Type} (P : world -> Prop).

Lemma preserves_ret (a : A) : preserves P (ret a).
Proof. by intros w HP. Qed.

Lemma preserves_throw (e : error) : preserves P (@throw A e).
Proof. by intros w HP. Qed.

Lemma preserves_lift (r : error + A) : preserves P (lift r).
Proof. destruct r; [apply preserves_throw | apply preserves_ret]. Qed.

Lemma preserves_read (f : world -> A) : preserves P (read f).
Proof. by intros w HP. Qed.

Lemma preserves_write (f : world -> world) :
  (forall w, P w -> P (f w)) -> preserves P (write f).
Proof. intros Hf w HP. by apply Hf. Qed.

Lemma preserves_bind (m : M A) (k : A -> M B) :
  preserves P m -> (forall a, preserves P (k a)) -> preserves P (bind m k).
Proof.
  intros Hm Hk w HP. unfold bind. specialize (Hm w HP).
  destruct (m w) as [[a|e] w']; simpl in *; [by apply Hk | done].
Qed.

Lemma preserves_catch (m : M A) (handle : error -> M A) :
  preserves P m -> (forall e, preserves P (handle e)) -> preserves P (catch m handle).
Proof.
  intros Hm Hh w HP. unfold catch. specialize (Hm w HP).
  destruct (m w) as [[a|e] w']; simpl in *; [done | by apply Hh].
Qed.

Lemma preserves_promise_all (ps : list (M A)) :
  Forall (preserves P) ps -> preserves P (promise_all ps).
Proof.
  induction 1 as [|p rest Hp _ IH]; intros w HP; simpl; [done|].
  specialize (Hp w HP). destruct (p w) as [[a|e] w1]; simpl in *.
  - specialize (IH w1 Hp). by destruct (promise_all rest w1) as [[l|e] w2].
  - by apply IH.
Qed.

End Preserves.

Lemma key_string_nonempty s : s <> "" -> DocumentClient.key_string (Some (JStr s)) = inr s.
Proof.
  intros Hs. unfold DocumentClient.key_string.
  by destruct (String.eqb_spec s "").
Qed.

Lemma key_string_inr attribute s :
  DocumentClient.key_string attribute = inr s -> attribute = Some (JStr s) /\ s <> "".
Proof.
  unfold DocumentClient.key_string.
  destruct attribute as [[| | |s'| |]|]; try discriminate.
  destruct (String.eqb_spec s' ""); [discriminate|]. by intros [= ->].
Qed.

Lemma key_of_inr Key c i :
  DocumentClient.key_of Key = inr (c, i) ->
  key_context Key = Some (JStr c) /\ key_id Key = Some (JStr i) /\ c <> "" /\ i <> "".
Proof.
  unfold DocumentClient.key_of.
  destruct (DocumentClient.key_string (key_context Key)) as [|c'] eqn:Hc; [discriminate|].
  destruct (DocumentClient.key_string (key_id Key)) as [|i'] eqn:Hi; [discriminate|].
  intros [= -> ->]. apply key_string_inr in Hc as [? ?], Hi as [? ?]. done.
Qed.

Lemma valid_keys_empty : valid_keys ∅.
Proof. intros c i Item H. by rewrite lookup_empty in H. Qed.

Lemma valid_keys_insert t c i Item :
  c <> "" -> i <> "" -> valid_keys t -> valid_keys (<[(c, i) := Item]> t).
Proof.
  intros Hc Hi Ht c' i' Item' H.
  apply lookup_insert_Some in H as [[[= <- <-] _]|[_ H]]; [done | by eapply Ht].
Qed.

Lemma valid_keys_delete t k : valid_keys t -> valid_keys (delete k t).
Proof.
  intros Ht c i Item H. apply lookup_delete_Some in H as [_ H]. by eapply Ht.
Qed.

Lemma send_keys_ok r : preserves keys_ok (DocumentClient.send r).
Proof. by intros w HP. Qed.

Lemma get_keys_ok TableName Key : preserves keys_ok (DocumentClient.get TableName Key).
Proof.
  repeat (apply preserves_bind; [|intros ?]);
    auto using send_keys_ok, preserves_lift, preserves_read.
Qed.

Lemma query_keys_ok TableName partition :
  preserves keys_ok (DocumentClient.query TableName partition).
Proof.
  repeat (apply preserves_bind; [|intros ?]);
    auto using send_keys_ok, preserves_lift, preserves_read.
Qed.

Lemma put_keys_ok TableName Item : preserves keys_ok (DocumentClient.put TableName Item).
Proof.
  intros w HP. unfold DocumentClient.put, DocumentClient.send, bind, write, read, lift.
  destruct (DocumentClient.key_of _) as [e|[c i]] eqn:Hk; [done|].
  cbn [ret]. destruct (DocumentClient.accepts _ Item); [|done].
  apply key_of_inr in Hk as (_ & _ & Hc & Hi). by apply valid_keys_insert.
Qed.

Lemma update_keys_ok TableName Key attribute v :
  preserves keys_ok (DocumentClient.update TableName Key attribute v).
Proof.
  intros w HP. unfold DocumentClient.update, DocumentClient.send, bind, write, lift.
  destruct (DocumentClient.key_of _) as [e|[c i]] eqn:Hk; [done|].
  apply key_of_inr in Hk as (_ & _ & Hc & Hi). by apply valid_keys_insert.
Qed.

Lemma delete_keys_ok TableName Key others :
  preserves keys_ok (DocumentClient.delete TableName Key others).
Proof.
  intros w HP. unfold DocumentClient.delete, DocumentClient.send, bind, write, lift.
  destruct Key as [Key|]; [|done].
  destruct (DocumentClient.key_of _) as [e|k]; [done|]. by apply valid_keys_delete.
Qed.

Lemma nanoid_keys_ok : preserves keys_ok Nanoid.nanoid.
Proof. by intros w HP. Qed.

Ltac preserve :=
  repeat first
    [ apply preserves_ret | apply preserves_throw | apply preserves_lift
    | apply preserves_read | apply nanoid_keys_ok
    | apply get_keys_ok | apply query_keys_ok | apply put_keys_ok
    | apply update_keys_ok | apply delete_keys_ok
    | apply preserves_catch; [|intros ?]
    | apply preserves_bind; [|intros ?]
    | match goal with |- preserves _ (match ?x with _ => _ end) => destruct x end ].

Lemma init_keys_ok : preserves keys_ok init.
Proof.
  unfold init. apply preserves_bind; [|intros ?; apply preserves_ret].
  apply preserves_promise_all, Forall_map, Forall_forall.
  intros Item _. apply put_keys_ok.
Qed.

Lemma case_keys_ok action operation data :
  case_of action = Some operation -> preserves keys_ok (operation data).
Proof.
  unfold case_of. destruct action as [[| | |a| |]|]; try discriminate.
  repeat (destruct (String.eqb a _);
          [intros [= <-];
           first [apply init_keys_ok
                 | unfold login, createOrder, getOrderList, completeOrder, reopenOrder,
                     getItemList, addItem, removeItem, createToken, Jwt.sign; preserve]|]).
  discriminate.
Qed.

(** The handler never leaves an empty string in a key of the table. *)
Lemma handler_valid_keys event w :
  valid_keys (table w) -> valid_keys (table (snd (handler event w))).
Proof.
  revert w. change (preserves keys_ok (handler event)).
  unfold handler. apply preserves_bind.
  { unfold extractEventDetails, checkToken, JSON_parse, Jwt.verify, Jwt.clockTimestamp.
    preserve. }
  intros details. apply preserves_bind; [unfold destructure; preserve|].
  intros [action data].
  destruct (case_of action) as [operation|] eqn:Hcase; unfold respond.
  - apply preserves_bind; [by eapply case_keys_ok | intros ?; apply preserves_ret].
  - preserve.
Qed.

(** ** nanoid *)

Lemma next_id_length w : String.length (Nanoid.next_id w) = 21%nat.
Proof. reflexivity. Qed.

Lemma next_id_nonempty w : Nanoid.next_id w <> "".
Proof. intros H. pose proof (next_id_length w) as Hl. rewrite H in Hl. discriminate. Qed.

(** ** Creating an order *)

(** What one run of [createOrder] does: it draws an identifier, hands the
    order to [put], and the order is stored when its key attributes are
    acceptable. *)
Lemma createOrder_run data w :
  createOrder data w =
  let order := order_of (Nanoid.next_id w) data in
  let w1 := with_request (PutRequest TABLE_NAME order)
              (with_pool_offset (pool_offset w + 21)%nat w) in
  match DocumentClient.key_of (DocumentClient.item_key order) with
  | inr k =>
      if DocumentClient.accepts (refuses w) order
      then (Resolved success, with_table (<[k := order]> (table w1)) w1)
      else (Rejected ValidationException, w1)
  | inl e => (Rejected e, w1)
  end.
Proof.
  unfold createOrder, bind, Nanoid.nanoid, DocumentClient.put, DocumentClient.send,
    bind, write, read, lift. cbn zeta.
  destruct (DocumentClient.key_of _); [done|].
  cbn [ret with_request with_pool_offset refuses].
  by destruct (DocumentClient.accepts _ _).
Qed.


(** A record within the limits is taken, whatever the store says of the
    others. *)
Lemma accepts_within_limits refuses Item :
  DocumentClient.within_limits Item = true -> DocumentClient.accepts refuses Item = true.
Proof. intros H. unfold DocumentClient.accepts. by rewrite H. Qed.

(** The T-shirt order of the scenarios is stored; the same order at a price
    of 1e+200 is refused and nothing is stored. *)
Example createOrder_in_and_out_of_range :
  let order price := Some (JObj [("title", JStr "T-Shirt"); ("price", JNum price)]) in
  fst (createOrder (order "10") fresh_world) = Resolved success /\
  table (snd (createOrder (order "10") fresh_world))
    !! ("order", Nanoid.next_id fresh_world) =
    Some (order_of (Nanoid.next_id fresh_world) (order "10")) /\
  fst (createOrder (order "1e+200") fresh_world) = Rejected ValidationException /\
  table (snd (createOrder (order "1e+200") fresh_world)) = table fresh_world.
Proof. repeat split; by vm_compute. Qed.

Lemma order_of_id id data :
  get_field "id" (order_of id data) =
  match get_field "id" (own_props data) with
  | Some v => Some v
  | None => Some (JStr id)
  end.
Proof.
  unfold order_of. rewrite get_field_set_prop_ne by done.
  rewrite get_field_assign. reflexivity.
Qed.

Lemma order_of_context id data :
  get_field "context" (order_of id data) =
  match get_field "context" (own_props data) with
  | Some v => Some v
  | None => Some (JStr "order")
  end.
Proof.
  unfold order_of. rewrite get_field_set_prop_ne by done.
  rewrite get_field_assign. reflexivity.
Qed.

(** C5, as amended: for a payload of ADD_ORDER that has no [id] and no
    [context] property, the record handed to the store has the identifier
    [nanoid] generated for it and context ["order"].  If the store takes
    the record, the operation returns [{success: true}] and the record is
    stored under that key; if it refuses the record, the operation rejects
    and nothing is stored. *)
Theorem createOrder_generated_key (data : option value) (w : world) :
  get_field "id" (own_props data) = None ->
  get_field "context" (own_props data) = None ->
  let order := order_of (Nanoid.next_id w) data in
  get_field "id" order = Some (JStr (Nanoid.next_id w)) /\
  get_field "context" order = Some (JStr "order") /\
  requests (snd (createOrder data w)) = (requests w ++ [PutRequest TABLE_NAME order])%list /\
  (DocumentClient.accepts (refuses w) order = true ->
   fst (createOrder data w) = Resolved success /\
   table (snd (createOrder data w)) = <[("order", Nanoid.next_id w) := order]> (table w)) /\
  (DocumentClient.accepts (refuses w) order = false ->
   (exists e, fst (createOrder data w) = Rejected e) /\
   table (snd (createOrder data w)) = table w).
Proof.
  intros Hid Hctx order.
  assert (get_field "id" order = Some (JStr (Nanoid.next_id w))) as Hoid
    by (unfold order; by rewrite order_of_id, Hid).
  assert (get_field "context" order = Some (JStr "order")) as Hoctx
    by (unfold order; by rewrite order_of_context, Hctx).
  do 2 (split; [done|]).
  rewrite createOrder_run. cbn zeta. fold order.
  unfold DocumentClient.key_of, DocumentClient.item_key. cbn [key_context key_id].
  rewrite Hoid, Hoctx, (key_string_nonempty "order") by done.
  rewrite (key_string_nonempty _ (next_id_nonempty w)).
  destruct (DocumentClient.accepts _ order).
  - split; [done|]. split; [done | discriminate].
  - split; [done|]. split; [discriminate|]. intros _. split; [by eexists | done].
Qed.

Lemma createOrder_generated_key_witness :
  let data := Some (JObj [("title", JStr "T-Shirt"); ("price", JNum "10");
                          ("orderStatus", JStr "CLOSED")]) in
  let order := order_of (Nanoid.next_id fresh_world) data in
  get_field "id" order = Some (JStr (Nanoid.next_id fresh_world)) /\
  get_field "context" order = Some (JStr "order") /\
  requests (snd (createOrder data fresh_world)) =
    (requests fresh_world ++ [PutRequest TABLE_NAME order])%list /\
  fst (createOrder data fresh_world) = Resolved success /\
  table (snd (createOrder data fresh_world)) =
    <[("order", Nanoid.next_id fresh_world) := order]> (table fresh_world).
Proof.
  intros data order.
  destruct (createOrder_generated_key data fresh_world eq_refl eq_refl)
    as (Hid & Hctx & Hreq & Htaken & _).
  do 3 (split; [assumption|]). apply Htaken. by vm_compute.
Defined.

(** C5, as stated, fails: a payload that brings its own [id] and [context]
    keeps them, and the record lands under that key, here in the partition
    of the users. *)
Lemma createOrder_supplied_key_wins :
  let data := Some (JObj [("id", JStr "admin"); ("context", JStr "user")]) in
  let w' := snd (createOrder data fresh_world) in
  Nanoid.next_id fresh_world = "useandom-26T198340PX7" /\
  fst (createOrder data fresh_world) = Resolved success /\
  table w' !! ("user", "admin") =
    Some [("context", JStr "user"); ("id", JStr "admin"); ("orderStatus", JStr "OPEN")] /\
  table w' !! ("order", "useandom-26T198340PX7") = None /\
  ~ writes_generated_key data fresh_world.
Proof.
  repeat split; try by vm_compute.
  intros Hclaim.
  destruct (Hclaim [("context", JStr "user"); ("id", JStr "admin"); ("orderStatus", JStr "OPEN")])
    as [Hid _]; [by vm_compute|].
  vm_compute in Hid. discriminate.
Qed.

(** ** The status of an order *)

Lemma completeOrder_unfold : completeOrder = set_orderStatus "CLOSED".
Proof. reflexivity. Qed.

Lemma reopenOrder_unfold : reopenOrder = set_orderStatus "OPEN".
Proof. reflexivity. Qed.

(** One run on a request that names an acceptable order id: an upsert. *)
Lemma set_orderStatus_run status data id w :
  get_prop data "id" = inr (Some (JStr id)) ->
  id <> "" ->
  set_orderStatus status data w =
  (Resolved success,
   with_table
     (<[("order", id) :=
          DocumentClient.updated ("order", id) "orderStatus" (JStr status)
            (table w !! ("order", id))]> (table w))
     (with_request
        (UpdateRequest TABLE_NAME
           {| key_context := Some (JStr "order"); key_id := Some (JStr id) |}
           "orderStatus" (JStr status)) w)).
Proof.
  intros Hid Hne.
  unfold set_orderStatus, bind, lift, DocumentClient.update, DocumentClient.send, bind, write.
  rewrite Hid. cbn [ret lift].
  unfold DocumentClient.key_of. cbn [key_context key_id].
  rewrite (key_string_nonempty "order") by done.
  rewrite (key_string_nonempty id) by done.
  reflexivity.
Qed.

(** C8: COMPLETE_ORDER twice on the id of an existing order: both runs
    return [{success: true}], the status is ["CLOSED"] after each, and the
    second run leaves the table as the first left it. *)
Theorem completeOrder_idempotent (data : option value) (id : string) (w : world)
    (Item : list (string * value)) :
  valid_keys (table w) ->
  get_prop data "id" = inr (Some (JStr id)) ->
  table w !! ("order", id) = Some Item ->
  let w1 := snd (completeOrder data w) in
  let w2 := snd (completeOrder data w1) in
  fst (completeOrder data w) = Resolved success /\
  orderStatus_of id w1 = Some (JStr "CLOSED") /\
  fst (completeOrder data w1) = Resolved success /\
  orderStatus_of id w2 = Some (JStr "CLOSED") /\
  table w2 = table w1.
Proof.
  intros Hvalid Hid Hitem.
  destruct (Hvalid _ _ _ Hitem) as [_ Hne].
  rewrite completeOrder_unfold. cbn zeta.
  rewrite (set_orderStatus_run "CLOSED" data id w Hid Hne), Hitem. cbn [fst snd].
  rewrite (set_orderStatus_run "CLOSED" data id _ Hid Hne). cbn [fst snd].
  unfold orderStatus_of, with_table. cbn [table].
  rewrite !lookup_insert_eq. cbn [DocumentClient.updated mbind option_bind].
  rewrite set_prop_idempotent, get_field_set_prop_eq, insert_insert_eq.
  done.
Qed.

Lemma completeOrder_idempotent_witness :
  let data := Some (JObj [("id", JStr "2")]) in
  let w := snd (init fresh_world) in
  let w1 := snd (completeOrder data w) in
  let w2 := snd (completeOrder data w1) in
  fst (completeOrder data w) = Resolved success /\
  orderStatus_of "2" w1 = Some (JStr "CLOSED") /\
  fst (completeOrder data w1) = Resolved success /\
  orderStatus_of "2" w2 = Some (JStr "CLOSED") /\
  table w2 = table w1.
Proof.
  intros data w.
  apply (completeOrder_idempotent data "2" w
           (seed_order "2" "Polo-Shirt" "Sundar Pitchai"
              "1600 Amphitheatre Parkway, Mountain View, CA 94043")).
  - apply init_keys_ok, valid_keys_empty.
  - reflexivity.
  - by vm_compute.
Defined.




(** ** Tokens *)

Lemma secret_or_default_nonempty secret : String.eqb (secret_or_default secret) "" = false.
Proof.
  unfold secret_or_default. destruct secret as [s|]; [|done].
  by destruct (String.eqb s "") eqn:Hs.
Qed.

Lemma secret_or_default_set s : s <> "" -> secret_or_default (Some s) = s.
Proof. intros Hs. unfold secret_or_default. by destruct (String.eqb_spec s ""). Qed.

(** Issuing never fails and touches nothing: the token carries the payload,
    the expiry 86400 seconds after the second of issuance, and is signed
    with [SECRET], or with ["SECRET"] when that is unset or empty. *)
Lemma createToken_run info w :
  createToken info w = (Resolved (issued info w), w).
Proof.
  unfold createToken, bind, read, Jwt.sign. cbn beta iota.
  by rewrite secret_or_default_nonempty.
Qed.

(** Checking a signed token never fails and touches nothing. *)
Lemma checkToken_signed payload key w :
  checkToken (Some (Jwt.Signed payload key)) w =
  (Resolved
     match SECRET w with
     | Some s =>
         if String.eqb s "" then empty_identity
         else if String.eqb s key
         then match Jwt.check_claims payload (clock w / 1000) with
              | inr accepted => Jwt.data accepted
              | inl _ => empty_identity
              end
         else empty_identity
     | None => empty_identity
     end, w).
Proof.
  unfold checkToken, catch, bind, read, Jwt.verify, Jwt.clockTimestamp, bind, read.
  cbn beta iota. destruct (SECRET w) as [s|]; [|done].
  destruct (String.eqb s ""); [done|]. destruct (String.eqb s key); [|done].
  cbn beta iota. by destruct (Jwt.check_claims payload (clock w / 1000)).
Qed.

(** [checkToken] never rejects and never changes the world. *)
Lemma checkToken_total token w : exists identity, checkToken token w = (Resolved identity, w).
Proof.
  destruct token as [[raw|payload key]|].
  - unfold checkToken, catch, bind, read, Jwt.verify. cbn beta iota.
    destruct (String.eqb raw ""); by eexists.
  - rewrite checkToken_signed. by eexists.
  - by eexists.
Qed.

Lemma expiry_ms_bounds w :
  clock w + 86400000 - 1000 < expiry_ms w <= clock w + 86400000.
Proof. unfold expiry_ms. Z.div_mod_to_equations. lia. Qed.

(** The library compares whole seconds; in milliseconds the comparison is
    with [expiry_ms]. *)
Lemma expired_seconds_ms w w' :
  (clock w / 1000 + 86400 <=? clock w' / 1000) = (expiry_ms w <=? clock w').
Proof.
  unfold expiry_ms.
  destruct (Z.leb_spec (clock w / 1000 + 86400) (clock w' / 1000)) as [H|H];
    destruct (Z.leb_spec ((clock w / 1000 + 86400) * 1000) (clock w')) as [H'|H'];
    try done; exfalso; revert H H'; Z.div_mod_to_equations; lia.
Qed.

(** A process that has a non-empty [SECRET] checks a token it issued: the
    payload comes back until the expiry, the empty identity from then on. *)
Lemma checkToken_issued info w w' s :
  SECRET w = Some s -> s <> "" -> SECRET w' = Some s ->
  checkToken (Some (token (issued info w))) w' =
  (Resolved (if expiry_ms w <=? clock w' then empty_identity else info), w').
Proof.
  intros Hs Hne Hs'. unfold issued. cbn [token].
  rewrite checkToken_signed, Hs, Hs', (secret_or_default_set s Hne).
  unfold Jwt.check_claims. cbn [Jwt.exp Jwt.nbf Jwt.data].
  destruct (String.eqb_spec s ""); [done|].
  rewrite String.eqb_refl, expired_seconds_ms.
  by destruct (expiry_ms w <=? clock w').
Qed.

(** C7, as amended: with a non-empty [SECRET] configured, a token issued at
    instant T (in milliseconds) expires at the whole second
    [floor(T/1000) + 86400], an instant E with T+24h-1s < E <= T+24h.  It
    verifies, yielding its payload, at every check before E, and yields the
    empty identity at every check at or after E, hence at or after
    T+24h. *)
Theorem token_valid_until_expiry (info : option value) (w w' : world) (s : string) :
  SECRET w = Some s ->
  s <> "" ->
  SECRET w' = Some s ->
  exists o,
    createToken info w = (Resolved o, w) /\
    (clock w' < expiry_ms w -> checkToken (Some (token o)) w' = (Resolved info, w')) /\
    (expiry_ms w <= clock w' ->
       checkToken (Some (token o)) w' = (Resolved empty_identity, w')) /\
    clock w + 86400000 - 1000 < expiry_ms w <= clock w + 86400000.
Proof.
  intros Hs Hne Hs'. exists (issued info w). split; [apply createToken_run|].
  rewrite (checkToken_issued info w w' s) by done.
  split; [|split; [|apply expiry_ms_bounds]]; intros Ht.
  - by destruct (Z.leb_spec (expiry_ms w) (clock w')); [lia|].
  - by destruct (Z.leb_spec (expiry_ms w) (clock w')); [|lia].
Qed.

Lemma token_valid_until_expiry_witness :
  let info := Some (JObj [("name", JStr "Admin")]) in
  exists o,
    createToken info fresh_world = (Resolved o, fresh_world) /\
    (clock (at_time 86400999 fresh_world) < expiry_ms fresh_world ->
       checkToken (Some (token o)) (at_time 86400999 fresh_world) =
         (Resolved info, at_time 86400999 fresh_world)) /\
    (expiry_ms fresh_world <= clock (at_time 86400999 fresh_world) ->
       checkToken (Some (token o)) (at_time 86400999 fresh_world) =
         (Resolved empty_identity, at_time 86400999 fresh_world)) /\
    clock fresh_world + 86400000 - 1000 < expiry_ms fresh_world <= clock fresh_world + 86400000.
Proof.
  intros info.
  apply (token_valid_until_expiry info fresh_world (at_time 86400999 fresh_world) "s3cret");
    [reflexivity | discriminate | reflexivity].
Defined.

(** C7, as stated, fails: a token issued at 1.5 s expires at 86401 s, so a
    check at 86401.0 s, half a second before T+24h, already yields the
    empty identity. *)
Lemma token_expires_within_last_second :
  let info := Some (JObj [("name", JStr "Admin")]) in
  let t := 86401000 in
  t < clock fresh_world + 86400000 /\
  (exists o, fst (createToken info fresh_world) = Resolved o /\
             fst (checkToken (Some (token o)) (at_time t fresh_world)) =
               Resolved empty_identity) /\
  ~ verifies_for_24h info fresh_world t.
Proof.
  repeat split; [eexists; split; by vm_compute|].
  intros Hclaim. edestruct Hclaim as [Hvalid _]; [by vm_compute|].
  specialize (Hvalid eq_refl). vm_compute in Hvalid. discriminate.
Qed.

(** C10: when [SECRET] is unset, [createToken] signs with the fallback key
    ["SECRET"] and [checkToken] verifies against the unset value; whatever
    the payload and whenever the check is made, the round trip yields the
    empty identity. *)
Theorem fallback_token_never_verifies (info : option value) (w w' : world) :
  SECRET w = None ->
  SECRET w' = None ->
  exists payload,
    fst (createToken info w) = Resolved {| token := Jwt.Signed payload "SECRET" |} /\
    Jwt.data payload = info /\
    fst (checkToken (Some (Jwt.Signed payload "SECRET")) w') = Resolved empty_identity.
Proof.
  intros Hs Hs'. rewrite createToken_run. unfold issued. rewrite Hs.
  eexists. split; [done|]. split; [done|].
  by rewrite checkToken_signed, Hs'.
Qed.

Lemma fallback_token_never_verifies_witness :
  let info := Some (JObj [("name", JStr "Admin")]) in
  exists payload,
    fst (createToken info unconfigured_world) =
      Resolved {| token := Jwt.Signed payload "SECRET" |} /\
    Jwt.data payload = info /\
    fst (checkToken (Some (Jwt.Signed payload "SECRET")) unconfigured_world) =
      Resolved empty_identity.
Proof.
  intros info.
  apply (fallback_token_never_verifies info unconfigured_world unconfigured_world);
    reflexivity.
Defined.

(** ** Login *)

(** A request whose [userId] names a stored user and whose [password] is
    strictly equal to the stored one gets a token that carries the stored
    [info]. *)
Lemma login_match data userId password Item w :
  valid_keys (table w) ->
  get_prop data "userId" = inr (Some (JStr userId)) ->
  get_prop data "password" = inr password ->
  table w !! ("user", userId) = Some Item ->
  strict_eq (get_field "password" Item) password = true ->
  login data w =
  (Resolved (WithToken (issued (get_field "info" Item) w)),
   with_request (GetRequest TABLE_NAME (user_key (Some (JStr userId)))) w).
Proof.
  intros Hvalid Hid Hpw Hitem Heq.
  destruct (Hvalid _ _ _ Hitem) as [_ Hne].
  unfold login, bind at 1. rewrite Hid. cbn [lift ret].
  unfold DocumentClient.get, DocumentClient.send, bind, write, read, lift,
    DocumentClient.key_of.
  cbn [key_context key_id].
  rewrite (key_string_nonempty "user"), (key_string_nonempty userId) by done.
  cbn [ret with_request table]. rewrite Hitem, Hpw. cbn [ret]. rewrite Heq.
  by rewrite createToken_run.
Qed.

(** X7: whenever LOGIN returns a token, the request named a stored user and
    gave a password strictly equal to the stored one: any other pair gets
    no token. *)
Lemma login_token_only_on_match data w o :
  fst (login data w) = Resolved (WithToken o) ->
  exists userId password Item,
    get_prop data "userId" = inr (Some (JStr userId)) /\
    get_prop data "password" = inr password /\
    table w !! ("user", userId) = Some Item /\
    strict_eq (get_field "password" Item) password = true.
Proof.
  unfold login, bind at 1.
  destruct (get_prop data "userId") as [e|userId] eqn:Hid; [discriminate|].
  cbn [lift ret].
  unfold DocumentClient.get, DocumentClient.send, bind, write, read, lift.
  destruct (DocumentClient.key_of _) as [e|[c i]] eqn:Hk; [discriminate|].
  apply key_of_inr in Hk as (Hc & Hi & _ & _). cbn [key_context key_id] in Hc, Hi.
  injection Hc as <-. subst userId.
  cbn [ret with_request table].
  destruct (table w !! ("user", i)) as [Item|] eqn:Hitem; [|discriminate].
  destruct (get_prop data "password") as [e|password] eqn:Hpw; [discriminate|].
  cbn [ret].
  destruct (strict_eq (get_field "password" Item) password) eqn:Heq; [|discriminate].
  intros _. by exists i, password, Item.
Qed.

(** X8: with a non-empty [SECRET] configured, the token of a successful
    LOGIN verifies, until it expires, to the stored [info]. *)
Lemma login_token_verifies data userId password Item w w' s :
  valid_keys (table w) ->
  get_prop data "userId" = inr (Some (JStr userId)) ->
  get_prop data "password" = inr password ->
  table w !! ("user", userId) = Some Item ->
  strict_eq (get_field "password" Item) password = true ->
  SECRET w = Some s -> s <> "" -> SECRET w' = Some s ->
  clock w' < expiry_ms w ->
  exists o,
    fst (login data w) = Resolved (WithToken o) /\
    fst (checkToken (Some (token o)) w') = Resolved (get_field "info" Item).
Proof.
  intros Hvalid Hid Hpw Hitem Heq Hs Hne Hs' Ht.
  rewrite (login_match data userId password Item w) by done.
  exists (issued (get_field "info" Item) w). split; [done|].
  rewrite (checkToken_issued _ w w' s) by done.
  by destruct (Z.leb_spec (expiry_ms w) (clock w')); [lia|].
Qed.

(** C1, where the code departs from it: in a process started without
    [SECRET], LOGIN with the right password of a stored user returns a
    token signed with the fallback key, and checking that token at once
    yields the empty identity instead of the stored profile. *)
Theorem login_token_rejected_without_SECRET :
  let w := with_table {[ ("user", "alice") := alice ]} unconfigured_world in
  exists o,
    fst (login alice_login w) = Resolved (WithToken o) /\
    get_field "info" alice = Some (JObj [("name", JStr "Alice"); ("role", JStr "admin")]) /\
    fst (checkToken (Some (token o)) (snd (login alice_login w))) = Resolved empty_identity /\
    empty_identity <> get_field "info" alice.
Proof.
  eexists. repeat split; by vm_compute.
Qed.

(** ** The dispatcher *)

Lemma case_of_recognized a :
  a ∈ recognized_actions -> is_Some (case_of (Some (JStr a))).
Proof.
  unfold recognized_actions. rewrite !elem_of_cons, elem_of_nil.
  intros H. repeat (destruct H as [->|H]; [by eexists|]). done.
Qed.


(** Normalising an event reads the clock and the secret and changes
    nothing. *)
Lemma extractEventDetails_world event w : snd (extractEventDetails event w) = w.
Proof.
  unfold extractEventDetails, bind at 1.
  assert (exists r, match Event.body event with
                    | Some text => JSON_parse text
                    | None => ret (JObj [])
                    end w = (r, w)) as [r ->].
  { destruct (Event.body event) as [[|v]|]; by eexists. }
  destruct r as [parsed|e]; [|done].
  unfold bind at 1.
  destruct (checkToken_total (h ← Event.headers event; Authorization h) w) as [identity ->].
  unfold bind. by destruct (Event.headers event).
Qed.

(** How the handler continues once the event is normalised and the body
    destructured. *)
Lemma handler_dispatch event w details action data :
  fst (extractEventDetails event w) = Resolved details ->
  get_prop (Some (Details.body details)) "action" = inr action ->
  get_prop (Some (Details.body details)) "data" = inr data ->
  handler event w =
  match case_of action with
  | Some operation => respond (operation data) w
  | None => respond (ret (Json (JObj []))) w
  end.
Proof.
  intros Hdetails Haction Hdata.
  pose proof (extractEventDetails_world event w) as Hw.
  unfold handler, bind at 1.
  destruct (extractEventDetails event w) as [r w0]. cbn [fst snd] in *. subst r w0.
  unfold destructure, bind at 1. rewrite Haction. cbn [lift ret].
  unfold bind at 1. rewrite Hdata. cbn [lift ret].
  unfold bind at 1. cbn [ret]. by destruct (case_of action).
Qed.





(** An event with headers and a body that is absent or parses normalises,
    to the parsed body or the empty object. *)
Lemma extractEventDetails_resolves event w h :
  Event.headers event = Some h ->
  Event.body event <> Some Unparseable ->
  exists details,
    extractEventDetails event w = (Resolved details, w) /\
    Details.body details =
      match Event.body event with
      | Some (Parses v) => v
      | _ => JObj []
      end.
Proof.
  intros Hh Hb. unfold extractEventDetails, bind at 1.
  destruct (Event.body event) as [[|v]|]; [done| |]; cbn [JSON_parse ret];
    unfold bind at 1;
    destruct (checkToken_total (h ← Event.headers event; Authorization h) w)
      as [identity ->];
    rewrite Hh; by eexists.
Qed.

(** An event without headers does not normalise: the request is rejected
    before the action is looked at. *)
Lemma headerless_event_rejected event w :
  Event.headers event = None ->
  Event.body event <> Some Unparseable ->
  handler event w =
  (Rejected (TypeError "Cannot read properties of undefined (reading 'x-api-key')"), w).
Proof.
  intros Hh Hb. unfold handler, extractEventDetails. rewrite Hh.
  destruct (Event.body event) as [[|v]|]; done.
Qed.

(** C4, as amended: when the operation an action selects rejects, the
    handler's own promise rejects with the same error, in the world the
    operation left; it returns no envelope. *)
Theorem handler_propagates_failure (event : proxy_event) (w w' : world)
    (details : event_details) (action data : option value)
    (operation : option value -> M reply) (e : error) :
  fst (extractEventDetails event w) = Resolved details ->
  get_prop (Some (Details.body details)) "action" = inr action ->
  get_prop (Some (Details.body details)) "data" = inr data ->
  case_of action = Some operation ->
  operation data w = (Rejected e, w') ->
  handler event w = (Rejected e, w').
Proof.
  intros Hdetails Haction Hdata Hcase Hfail.
  rewrite (handler_dispatch event w details action data) by done.
  rewrite Hcase. unfold respond, bind. by rewrite Hfail.
Qed.

Lemma handler_propagates_failure_witness :
  handler (post "LOGIN" (JObj [("userId", JNum "7")])) fresh_world =
  (Rejected ValidationException,
   with_request (GetRequest TABLE_NAME (user_key (Some (JNum "7")))) fresh_world).
Proof.
  eapply (handler_propagates_failure
            (post "LOGIN" (JObj [("userId", JNum "7")])) fresh_world _ _
            (Some (JStr "LOGIN")) (Some (JObj [("userId", JNum "7")])) login);
    reflexivity.
Defined.

(** C4, as stated, fails: LOGIN with a [userId] that is a number makes the
    store refuse the key of the get request; the promise of [login]
    rejects, and the invocation ends with that rejection, not with an
    envelope. *)
Lemma handler_failure_uncaught :
  let data := JObj [("userId", JNum "7"); ("password", JStr "x")] in
  let event := post "LOGIN" data in
  exists e,
    fst (login (Some data) fresh_world) = Rejected e /\
    fst (handler event fresh_world) = Rejected e /\
    ~ answers_with_envelope event fresh_world.
Proof.
  eexists. repeat split; try by vm_compute.
  intros [response H]. vm_compute in H. discriminate.
Qed.

(** ** Items *)

(** X11: ITEM_LIST answers with the records stored under context ["item"],
    and with no other; it asks the store one query and writes nothing. *)
Lemma getItemList_lists data w :
  exists Items,
    getItemList data w =
      (Resolved (Json (JArr (map JObj Items))),
       with_request (QueryRequest TABLE_NAME (JStr "item")) w) /\
    forall Item, Item ∈ Items <-> exists id, table w !! ("item", id) = Some Item.
Proof.
  eexists. split; [reflexivity|].
  intros Item. cbn [with_request table].
  change (map snd ?l) with (snd <$> l). rewrite list_elem_of_fmap. split.
  - intros ([[c i] Item'] & -> & Hin). apply list_elem_of_filter in Hin as [Hc Hin].
    cbn in Hc. subst c. apply elem_of_map_to_list in Hin. by exists i.
  - intros [id Hid]. exists (("item", id), Item). split; [done|].
    apply list_elem_of_filter. split; [done|]. by apply elem_of_map_to_list.
Qed.

(** With a [Key], [delete] removes the record that key holds. *)
Lemma delete_with_key TableName Key k w :
  DocumentClient.key_of Key = inr k ->
  fst (DocumentClient.delete TableName (Some Key) [] w) = Resolved tt /\
  table (snd (DocumentClient.delete TableName (Some Key) [] w)) = delete k (table w).
Proof.
  intros Hk. unfold DocumentClient.delete, DocumentClient.send, bind, write, lift.
  by rewrite Hk.
Qed.

(** A [delete] without [Key] is rejected and leaves the table alone. *)
Lemma delete_without_key TableName others w :
  (exists e, fst (DocumentClient.delete TableName None others w) = Rejected e) /\
  table (snd (DocumentClient.delete TableName None others w)) = table w.
Proof.
  unfold DocumentClient.delete, DocumentClient.send, bind, write.
  split; [by eexists | done].
Qed.

(** X19: [removeItem] never removes anything: whatever it is given, its
    promise rejects and the table is as before. *)
Lemma removeItem_never_deletes data w :
  (exists e, fst (removeItem data w) = Rejected e) /\
  table (snd (removeItem data w)) = table w.
Proof.
  unfold removeItem, bind at 1.
  destruct (get_prop data "id") as [e|id]; cbn [lift throw ret].
  - split; [by eexists | done].
  - unfold bind.
    destruct (delete_without_key TABLE_NAME
                [("context", Some (JStr "item")); ("id", id)] w) as [[e He] Ht].
    destruct (DocumentClient.delete _ _ _ w) as [[u|e'] w']; cbn [fst snd] in *;
      [discriminate|]. split; [by eexists | done].
Qed.

(** C6, where the code departs from it: after ADD_ITEM of a T-shirt,
    REMOVE_ITEM with the id the record received is rejected by the store
    client, because the request has no [Key]; the record is still in the
    table and ITEM_LIST still lists it. *)
Theorem removed_item_still_listed :
  let X := JObj [("title", JStr "T-Shirt"); ("price", JNum "10")] in
  let id := Nanoid.next_id fresh_world in
  let stored := item_of id (Some X) in
  let w1 := snd (handler (post "ADD_ITEM" X) fresh_world) in
  let remove := post "REMOVE_ITEM" (JObj [("id", JStr id)]) in
  let w2 := snd (handler remove w1) in
  table w1 !! ("item", id) = Some stored /\
  (exists e, fst (handler remove w1) = Rejected e) /\
  table w2 !! ("item", id) = Some stored /\
  exists Items,
    fst (getItemList (Some (JObj [])) w2) = Resolved (Json (JArr (map JObj Items))) /\
    stored ∈ Items.
Proof.
  split; [by vm_compute|]. split; [eexists; by vm_compute|]. split; [by vm_compute|].
  exists [item_of (Nanoid.next_id fresh_world)
            (Some (JObj [("title", JStr "T-Shirt"); ("price", JNum "10")]))].
  split; [by vm_compute | apply list_elem_of_singleton; reflexivity].
Qed.

(** ** The switch and two scenarios *)

(** The case each of the nine actions selects. *)
Lemma case_of_table :
  case_of (Some (JStr "LOGIN")) = Some login /\
  case_of (Some (JStr "ADD_ORDER")) = Some createOrder /\
  case_of (Some (JStr "ORDER_LIST")) = Some getOrderList /\
  case_of (Some (JStr "COMPLETE_ORDER")) = Some completeOrder /\
  case_of (Some (JStr "REOPEN_ORDER")) = Some reopenOrder /\
  case_of (Some (JStr "ITEM_LIST")) = Some getItemList /\
  case_of (Some (JStr "ADD_ITEM")) = Some addItem /\
  case_of (Some (JStr "REMOVE_ITEM")) = Some removeItem /\
  exists operation, case_of (Some (JStr "INIT")) = Some operation /\
                    forall data, operation data = init.
Proof. repeat split. by eexists. Qed.

(** The seven seed records are within the limits of the store, so INIT
    resolves to [undefined] whatever the store says of other records. *)
Lemma init_resolves w : fst (init w) = Resolved Undefined.
Proof. reflexivity. Qed.

(** After INIT, the seeded administrator logs in with the seeded password
    and gets a token; with another password the reply is [undefined] and
    the envelope has no body. *)
Example login_after_init :
  let w := snd (handler (post "INIT" (JObj [])) fresh_world) in
  let right := JObj [("userId", JStr "admin");
                     ("password", JStr "cac28395540089e505a68311833c2cb5a92f84f4")] in
  let wrong := JObj [("userId", JStr "admin"); ("password", JStr "wrong")] in
  Response.body <$> fst (handler (post "LOGIN" right) w) =
    Resolved (TokenText (issued None w)) /\
  Response.body <$> fst (handler (post "LOGIN" wrong) w) = Resolved NoBody.
Proof. split; by vm_compute. Qed.

(** ADD_ORDER answers [{success: true}], and ORDER_LIST then lists the new
    order with its title and status ["OPEN"]. *)
Example order_listed_after_add :
  let order := JObj [("title", JStr "T-Shirt"); ("price", JNum "10");
                     ("buyerName", JStr "X"); ("buyerAddress", JStr "Y")] in
  let w := snd (handler (post "ADD_ORDER" order) fresh_world) in
  let stored := order_of (Nanoid.next_id fresh_world) (Some order) in
  Response.body <$> fst (handler (post "ADD_ORDER" order) fresh_world) =
    Resolved (Text (stringify (JObj [("success", JBool true)]))) /\
  fst (getOrderList None w) = Resolved (Json (JArr [JObj stored])) /\
  get_field "title" stored = Some (JStr "T-Shirt") /\
  get_field "orderStatus" stored = Some (JStr "OPEN").
Proof. repeat split; by vm_compute. Qed.

(** * Further properties *)

(** ** One run of each store call *)

Lemma get_run TableName Key w :
  DocumentClient.get TableName Key w =
  (match DocumentClient.key_of Key with
   | inl e => Rejected e
   | inr k => Resolved (table w !! k)
   end, with_request (GetRequest TableName Key) w).
Proof.
  unfold DocumentClient.get, DocumentClient.send, bind, write, read, lift.
  by destruct (DocumentClient.key_of Key).
Qed.

Lemma query_run TableName c w :
  DocumentClient.query TableName (JStr c) w =
  (if String.eqb c "" then Rejected ValidationException
   else Resolved (map snd (filter (fun entry => fst (fst entry) = c)
                                  (map_to_list (table w)))),
   with_request (QueryRequest TableName (JStr c)) w).
Proof.
  unfold DocumentClient.query, DocumentClient.send, bind, write, read, lift,
    DocumentClient.key_string.
  by destruct (String.eqb c "").
Qed.

Lemma put_run TableName Item w :
  DocumentClient.put TableName Item w =
  match DocumentClient.key_of (DocumentClient.item_key Item) with
  | inl e => (Rejected e, with_request (PutRequest TableName Item) w)
  | inr k =>
      if DocumentClient.accepts (refuses w) Item
      then (Resolved tt,
            with_table (<[k := Item]> (table w)) (with_request (PutRequest TableName Item) w))
      else (Rejected ValidationException, with_request (PutRequest TableName Item) w)
  end.
Proof.
  unfold DocumentClient.put, DocumentClient.send, bind, write, read, lift.
  destruct (DocumentClient.key_of _); [done|].
  cbn [ret with_request refuses]. by destruct (DocumentClient.accepts _ _).
Qed.

Lemma respond_run response w :
  respond response w =
  match response w with
  | (Resolved r, w') =>
      (Resolved {| Response.statusCode := 200; Response.headers := cors_headers;
                   Response.body := JSON_stringify r |}, w')
  | (Rejected e, w') => (Rejected e, w')
  end.
Proof. unfold respond, bind. by destruct (response w) as [[r|e] w']. Qed.

(** The handler, once the event is normalised: the world is still the one
    it started in when the operation is chosen. *)
Lemma handler_run event w :
  handler event w =
  match fst (extractEventDetails event w) with
  | Rejected e => (Rejected e, w)
  | Resolved details =>
      match get_prop (Some (Details.body details)) "action",
            get_prop (Some (Details.body details)) "data" with
      | inr action, inr data =>
          match case_of action with
          | Some operation => respond (operation data) w
          | None => (Resolved empty_object_envelope, w)
          end
      | inl e, _ => (Rejected e, w)
      | _, inl e => (Rejected e, w)
      end
  end.
Proof.
  pose proof (extractEventDetails_world event w) as Hw.
  unfold handler, bind at 1.
  destruct (extractEventDetails event w) as [[details|e] w0]; cbn [fst snd] in *;
    subst w0; [|done].
  unfold destructure, bind at 1.
  destruct (get_prop (Some (Details.body details)) "action") as [e|action]; [done|].
  cbn [lift ret]. unfold bind at 1.
  destruct (get_prop (Some (Details.body details)) "data") as [e|data]; [done|].
  cbn [lift ret]. unfold bind at 1. cbn [ret]. by destruct (case_of action).
Qed.

(** ** What one operation does to the table *)

Lemma bind_run {A B} (m : M A) (k : A -> M B) w :
  bind m k w =
  match m w with
  | (Resolved a, w') => k a w'
  | (Rejected e, w') => (Rejected e, w')
  end.
Proof. reflexivity. Qed.

Ltac run := cbv beta iota delta [lift throw ret].

Lemma login_world data w :
  snd (login data w) = w \/
  exists Key, snd (login data w) = with_request (GetRequest TABLE_NAME Key) w.
Proof.
  unfold login. rewrite bind_run.
  destruct (get_prop data "userId") as [e|userId]; run; [by left|].
  right. eexists. rewrite bind_run, get_run.
  destruct (DocumentClient.key_of _) as [e|k]; [done|].
  destruct (table w !! k) as [Item|]; [|done].
  rewrite bind_run.
  destruct (get_prop data "password") as [e|password]; run; [done|].
  destruct (strict_eq _ _); [|done].
  by rewrite bind_run, createToken_run.
Qed.

Lemma removeItem_table data w : table (snd (removeItem data w)) = table w.
Proof.
  unfold removeItem. rewrite bind_run.
  destruct (get_prop data "id") as [e|id]; run; [done|].
  rewrite bind_run.
  pose proof (delete_without_key TABLE_NAME
                [("context", Some (JStr "item")); ("id", id)] w) as [_ Ht].
  by destruct (DocumentClient.delete _ _ _ w) as [[u|e'] w'].
Qed.

Lemma addItem_unfold data w :
  addItem data w =
  let item := item_of (Nanoid.next_id w) data in
  let w1 := with_request (PutRequest TABLE_NAME item)
              (with_pool_offset (pool_offset w + 21)%nat w) in
  match DocumentClient.key_of (DocumentClient.item_key item) with
  | inr k =>
      if DocumentClient.accepts (refuses w) item
      then (Resolved Undefined, with_table (<[k := item]> (table w1)) w1)
      else (Rejected ValidationException, w1)
  | inl e => (Rejected e, w1)
  end.
Proof.
  unfold addItem. rewrite bind_run. unfold Nanoid.nanoid. cbn zeta.
  rewrite bind_run, put_run. destruct (DocumentClient.key_of _); [done|].
  cbn [with_pool_offset refuses]. by destruct (DocumentClient.accepts _ _).
Qed.

Lemma set_orderStatus_unfold status data w :
  set_orderStatus status data w =
  match get_prop data "id" with
  | inl e => (Rejected e, w)
  | inr id =>
      let Key := {| key_context := Some (JStr "order"); key_id := id |} in
      let w1 := with_request (UpdateRequest TABLE_NAME Key "orderStatus" (JStr status)) w in
      match DocumentClient.key_string id with
      | inl e => (Rejected e, w1)
      | inr i =>
          (Resolved success,
           with_table
             (<[("order", i) :=
                  DocumentClient.updated ("order", i) "orderStatus" (JStr status)
                    (table w !! ("order", i))]> (table w)) w1)
      end
  end.
Proof.
  unfold set_orderStatus. rewrite bind_run.
  destruct (get_prop data "id") as [e|id]; run; [done|].
  unfold DocumentClient.update, DocumentClient.send, bind, write, lift,
    DocumentClient.key_of.
  cbn [key_context key_id]. rewrite (key_string_nonempty "order") by done.
  by destruct (DocumentClient.key_string id).
Qed.

(** The table after one operation: as before, or with one record put under
    the key its attributes name, or with the status of one order upserted,
    or reseeded. *)
Lemma operation_table_cases action operation data w :
  case_of action = Some operation ->
  table (snd (operation data w)) = table w \/
  (exists k Item,
      DocumentClient.key_of (DocumentClient.item_key Item) = inr k /\
      table (snd (operation data w)) = <[k := Item]> (table w)) \/
  (exists i status,
      i <> "" /\
      table (snd (operation data w)) =
        <[("order", i) :=
            DocumentClient.updated ("order", i) "orderStatus" (JStr status)
              (table w !! ("order", i))]> (table w)) \/
  table (snd (operation data w)) = table (snd (init w)).
Proof.
  unfold case_of. destruct action as [[| | |a| |]|]; try discriminate.
  destruct (String.eqb a "INIT"); [intros [= <-]; by do 3 right|].
  destruct (String.eqb a "LOGIN").
  { intros [= <-]. left. by destruct (login_world data w) as [->|[Key ->]]. }
  destruct (String.eqb a "ADD_ORDER").
  { intros [= <-]. rewrite createOrder_run. cbn zeta.
    destruct (DocumentClient.key_of _) as [e|k] eqn:Hk; [by left|].
    destruct (DocumentClient.accepts _ _); [|by left].
    right; left. by exists k, (order_of (Nanoid.next_id w) data). }
  destruct (String.eqb a "ORDER_LIST").
  { intros [= <-]. left. unfold getOrderList. by rewrite bind_run, query_run. }
  destruct (String.eqb a "COMPLETE_ORDER").
  { intros [= <-]. rewrite completeOrder_unfold, set_orderStatus_unfold.
    destruct (get_prop data "id") as [e|id]; [by left|]. cbn zeta.
    destruct (DocumentClient.key_string id) as [e|i] eqn:Hi; [by left|].
    apply key_string_inr in Hi as [_ Hne]. do 2 right; left. by exists i, "CLOSED". }
  destruct (String.eqb a "REOPEN_ORDER").
  { intros [= <-]. rewrite reopenOrder_unfold, set_orderStatus_unfold.
    destruct (get_prop data "id") as [e|id]; [by left|]. cbn zeta.
    destruct (DocumentClient.key_string id) as [e|i] eqn:Hi; [by left|].
    apply key_string_inr in Hi as [_ Hne]. do 2 right; left. by exists i, "OPEN". }
  destruct (String.eqb a "ITEM_LIST").
  { intros [= <-]. left. unfold getItemList. by rewrite bind_run, query_run. }
  destruct (String.eqb a "ADD_ITEM").
  { intros [= <-]. rewrite addItem_unfold. cbn zeta.
    destruct (DocumentClient.key_of _) as [e|k] eqn:Hk; [by left|].
    destruct (DocumentClient.accepts _ _); [|by left].
    right; left. by exists k, (item_of (Nanoid.next_id w) data). }
  destruct (String.eqb a "REMOVE_ITEM"); [|discriminate].
  intros [= <-]. left. apply removeItem_table.
Qed.

Lemma respond_world response w : snd (respond response w) = snd (response w).
Proof. rewrite respond_run. by destruct (response w) as [[r|e] w']. Qed.

(** The same for a whole invocation. *)
Lemma handler_table_cases event w :
  table (snd (handler event w)) = table w \/
  (exists k Item,
      DocumentClient.key_of (DocumentClient.item_key Item) = inr k /\
      table (snd (handler event w)) = <[k := Item]> (table w)) \/
  (exists i status,
      i <> "" /\
      table (snd (handler event w)) =
        <[("order", i) :=
            DocumentClient.updated ("order", i) "orderStatus" (JStr status)
              (table w !! ("order", i))]> (table w)) \/
  table (snd (handler event w)) = table (snd (init w)).
Proof.
  rewrite handler_run.
  destruct (fst (extractEventDetails event w)) as [details|e]; [|by left].
  destruct (get_prop _ "action") as [e|action]; [by left|].
  destruct (get_prop _ "data") as [e|data]; [by left|].
  destruct (case_of action) as [operation|] eqn:Hcase; [|by left].
  rewrite respond_world. by apply (operation_table_cases action).
Qed.

(** ** Invariants of the table *)

Lemma records_keyed_insert t c i Item :
  records_keyed t ->
  DocumentClient.key_of (DocumentClient.item_key Item) = inr (c, i) ->
  records_keyed (<[(c, i) := Item]> t).
Proof.
  intros Ht Hk c' i' Item' H.
  apply lookup_insert_Some in H as [[[= <- <-] <-]|[_ H]]; [|by eapply Ht].
  by apply key_of_inr in Hk.
Qed.

Lemma put_records_keyed TableName Item :
  preserves (fun w => records_keyed (table w)) (DocumentClient.put TableName Item).
Proof.
  intros w Hw. rewrite put_run.
  destruct (DocumentClient.key_of _) as [e|[c i]] eqn:Hk; [done|].
  destruct (DocumentClient.accepts _ _); [|done].
  by apply records_keyed_insert.
Qed.

Lemma put_keeps_key TableName Item k :
  preserves (fun w => is_Some (table w !! k)) (DocumentClient.put TableName Item).
Proof.
  intros w Hw. rewrite put_run.
  destruct (DocumentClient.key_of _) as [e|k'] eqn:Hk; [done|].
  destruct (DocumentClient.accepts _ _); [|done].
  cbn [snd with_table table with_request]. rewrite lookup_insert_is_Some.
  destruct (decide (k' = k)); [by left | by right].
Qed.

Lemma init_preserves (P : world -> Prop) :
  (forall Item, preserves P (DocumentClient.put "EcommerceData" Item)) ->
  preserves P init.
Proof.
  intros Hput. unfold init. apply preserves_bind; [|intros ?; apply preserves_ret].
  apply preserves_promise_all, Forall_map, Forall_forall. intros Item _. apply Hput.
Qed.

(** X1: whatever the event, an invocation keeps every record under the key
    its own [context] and [id] attributes name: if all records of the table
    carry their key before, all do after. *)
Theorem handler_keeps_records_keyed (event : proxy_event) (w : world) :
  records_keyed (table w) ->
  records_keyed (table (snd (handler event w))).
Proof.
  intros Hw.
  destruct (handler_table_cases event w)
    as [->|[(k & Item & Hk & ->)|[(i & status & Hi & ->)| ->]]]; [done| | |].
  - destruct k as [c i']. by apply records_keyed_insert.
  - intros c i' Item' H.
    apply lookup_insert_Some in H as [[[= <- <-] <-]|[_ H]]; [|by eapply Hw].
    destruct (table w !! ("order", i)) as [Item|] eqn:HItem; cbn [DocumentClient.updated].
    + destruct (Hw _ _ _ HItem) as (Hc & Hid & _ & _).
      by rewrite !get_field_set_prop_ne.
    + by cbn.
  - by apply (init_preserves _ (put_records_keyed _)).
Qed.

Lemma handler_keeps_records_keyed_witness :
  records_keyed
    (table (snd (handler (post "ADD_ORDER" (JObj [("id", JStr "x"); ("context", JStr "user")]))
                   fresh_world))).
Proof.
  apply (handler_keeps_records_keyed
           (post "ADD_ORDER" (JObj [("id", JStr "x"); ("context", JStr "user")]))
           fresh_world).
  intros c i Item H. unfold fresh_world in H. cbn [table] in H.
  by rewrite lookup_empty in H.
Defined.

(** X2: no invocation removes a record: a key that holds a record before
    the handler runs holds one after, whatever the event, REMOVE_ITEM
    included. *)
Theorem handler_never_deletes (event : proxy_event) (w : world) (k : string * string) :
  is_Some (table w !! k) ->
  is_Some (table (snd (handler event w)) !! k).
Proof.
  intros Hw.
  destruct (handler_table_cases event w)
    as [->|[(k' & Item & Hk & ->)|[(i & status & Hi & ->)| ->]]]; [done| | |].
  - rewrite lookup_insert_is_Some. destruct (decide (k' = k)); [by left | by right].
  - rewrite lookup_insert_is_Some.
    destruct (decide (("order", i) = k)); [by left | by right].
  - by apply (init_preserves _ (fun Item => put_keeps_key _ Item k)).
Qed.

Lemma handler_never_deletes_witness :
  is_Some (table (snd (handler (post "REMOVE_ITEM" (JObj [("id", JStr "1")])) seeded_world))
             !! ("item", "1")).
Proof.
  apply (handler_never_deletes (post "REMOVE_ITEM" (JObj [("id", JStr "1")])) seeded_world
           ("item", "1")).
  exists (seed_item "1" "images/product01.jpg" "Tank Top"). by vm_compute.
Defined.

(** ** Normalising the event *)

Lemma extractEventDetails_unparseable event w :
  Event.body event = Some Unparseable ->
  extractEventDetails event w = (Rejected (SyntaxError "Unexpected token in JSON"), w).
Proof. intros Hb. unfold extractEventDetails. by rewrite bind_run, Hb. Qed.

Lemma extractEventDetails_headerless event w :
  Event.body event <> Some Unparseable ->
  Event.headers event = None ->
  extractEventDetails event w =
  (Rejected (TypeError "Cannot read properties of undefined (reading 'x-api-key')"), w).
Proof.
  intros Hb Hh. unfold extractEventDetails. rewrite Hh.
  destruct (Event.body event) as [[|v]|]; done.
Qed.

(** X3: the handler never looks at who calls.  Two events that carry the
    same body and both have headers get the same answer and have the same
    effect, whatever their [Authorization] token, API key, user agent,
    path, method, query string and source address. *)
Theorem handler_ignores_caller (event event' : proxy_event) (w : world) :
  Event.body event = Event.body event' ->
  is_Some (Event.headers event) ->
  is_Some (Event.headers event') ->
  handler event w = handler event' w.
Proof.
  intros Hbody [h Hh] [h' Hh'].
  assert (Event.body event = Some Unparseable \/ Event.body event <> Some Unparseable)
    as [Hb|Hb] by (destruct (Event.body event) as [[|v]|]; first [by left | by right]).
  - unfold handler. rewrite !bind_run, !extractEventDetails_unparseable; congruence.
  - destruct (extractEventDetails_resolves event w h Hh Hb) as (d & Hd & Hdb).
    assert (Event.body event' <> Some Unparseable) as Hb' by congruence.
    destruct (extractEventDetails_resolves event' w h' Hh' Hb') as (d' & Hd' & Hdb').
    rewrite !handler_run, Hd, Hd'. cbn [fst]. by rewrite Hdb, Hdb', Hbody.
Qed.

Lemma handler_ignores_caller_witness :
  handler (post "ORDER_LIST" (JObj [])) seeded_world =
  handler {| Event.body := Some (Parses (JObj [("action", JStr "ORDER_LIST");
                                                ("data", JObj [])]));
             Event.queryStringParameters := Some (JObj [("debug", JStr "1")]);
             Event.path := Some "/admin"; Event.httpMethod := Some "GET";
             Event.sourceIp := None;
             Event.headers := Some {| Authorization := Some (Jwt.Malformed "not-a-token");
                                      x_api_key := Some "k"; User_Agent := None |} |}
          seeded_world.
Proof.
  apply handler_ignores_caller; [reflexivity | by eexists | by eexists].
Defined.

(** X4: every envelope the handler returns has status 200 and the three
    permissive CORS headers, whatever the action and whatever the operation
    answered. *)
Theorem handler_envelope_200 (event : proxy_event) (w : world) (answer : envelope) :
  fst (handler event w) = Resolved answer ->
  Response.statusCode answer = 200 /\ Response.headers answer = cors_headers.
Proof.
  rewrite handler_run.
  destruct (fst (extractEventDetails event w)) as [details|e]; [|discriminate].
  destruct (get_prop _ "action") as [e|action]; [discriminate|].
  destruct (get_prop _ "data") as [e|data]; [discriminate|].
  destruct (case_of action) as [operation|]; [|by intros [= <-]].
  rewrite respond_run. destruct (operation data w) as [[r|e] w']; [|discriminate].
  by intros [= <-].
Qed.

Lemma handler_envelope_200_witness :
  Response.statusCode bodiless_envelope = 200 /\
  Response.headers bodiless_envelope = cors_headers.
Proof.
  apply (handler_envelope_200
           (post "LOGIN" (JObj [("userId", JStr "admin"); ("password", JStr "wrong")]))
           seeded_world).
  by vm_compute.
Defined.

(** X5: an event whose body does not parse, that has no headers, or whose
    body is the JSON [null] makes the invocation reject with a
    [SyntaxError] or a [TypeError]; the world is left as it was, so nothing
    was asked of the store. *)
Theorem unusable_event_rejected (event : proxy_event) (w : world) :
  Event.body event = Some Unparseable \/
  Event.headers event = None \/
  Event.body event = Some (Parses JNull) ->
  exists message,
    handler event w = (Rejected (SyntaxError message), w) \/
    handler event w = (Rejected (TypeError message), w).
Proof.
  intros H.
  assert (Event.body event = Some Unparseable \/ Event.body event <> Some Unparseable)
    as [Hb|Hb] by (destruct (Event.body event) as [[|v]|]; first [by left | by right]).
  { eexists. left. unfold handler. by rewrite bind_run, extractEventDetails_unparseable. }
  destruct (Event.headers event) as [h|] eqn:Hh.
  - destruct H as [H|[H|H]]; [done | done |].
    destruct (extractEventDetails_resolves event w h Hh Hb) as (d & Hd & Hdb).
    rewrite H in Hdb. eexists. right. rewrite handler_run, Hd. cbn [fst]. by rewrite Hdb.
  - eexists. right. unfold handler.
    by rewrite bind_run, extractEventDetails_headerless.
Qed.

Lemma unusable_event_rejected_witness :
  exists message,
    handler {| Event.body := Some (Parses JNull); Event.queryStringParameters := None;
               Event.path := None; Event.httpMethod := None; Event.sourceIp := None;
               Event.headers := Some plain_headers |} seeded_world =
      (Rejected (SyntaxError message), seeded_world) \/
    handler {| Event.body := Some (Parses JNull); Event.queryStringParameters := None;
               Event.path := None; Event.httpMethod := None; Event.sourceIp := None;
               Event.headers := Some plain_headers |} seeded_world =
      (Rejected (TypeError message), seeded_world).
Proof.
  apply unusable_event_rejected. right. right. reflexivity.
Defined.

(** ** Checking a token *)



(** ** Login *)

Lemma valid_keys_singleton c i Item :
  c <> "" -> i <> "" -> valid_keys {[ (c, i) := Item ]}.
Proof.
  intros Hc Hi c' i' Item' H. by apply lookup_singleton_Some in H as [[= <- <-] _].
Qed.

Lemma login_token_only_on_match_witness :
  exists userId password Item,
    get_prop alice_login "userId" = inr (Some (JStr userId)) /\
    get_prop alice_login "password" = inr password /\
    table alice_world !! ("user", userId) = Some Item /\
    strict_eq (get_field "password" Item) password = true.
Proof.
  apply (login_token_only_on_match alice_login alice_world
           (issued (get_field "info" alice) alice_world)).
  by vm_compute.
Defined.

Lemma login_token_verifies_witness :
  exists o,
    fst (login alice_login alice_world) = Resolved (WithToken o) /\
    fst (checkToken (Some (token o)) (at_time 3600000 alice_world)) =
      Resolved (get_field "info" alice).
Proof.
  apply (login_token_verifies alice_login "alice"
           (Some (JStr "5baa61e4c9b93f3f0682250b6cf8331b7ee68fd8")) alice
           alice_world (at_time 3600000 alice_world) "s3cret");
    [by apply valid_keys_singleton | reflexivity | reflexivity | reflexivity
    | reflexivity | reflexivity | discriminate | reflexivity | reflexivity].
Defined.




(** X10: the comparison is [===] on whatever is stored: a user record that
    has no [password] attribute is logged in by a request that names it and
    carries no [password] either, and gets a token for its [info]. *)
Theorem login_without_password (data : option value) (userId : string)
    (Item : list (string * value)) (w : world) :
  valid_keys (table w) ->
  get_prop data "userId" = inr (Some (JStr userId)) ->
  get_prop data "password" = inr None ->
  table w !! ("user", userId) = Some Item ->
  get_field "password" Item = None ->
  fst (login data w) = Resolved (WithToken (issued (get_field "info" Item) w)).
Proof.
  intros Hvalid Hid Hpw HItem Hnone.
  rewrite (login_match data userId None Item w); try done. by rewrite Hnone.
Qed.

Lemma login_without_password_witness :
  let w := with_table {[ ("user", "guest") := guest ]} fresh_world in
  fst (login (Some (JObj [("userId", JStr "guest")])) w) =
  Resolved (WithToken (issued (get_field "info" guest) w)).
Proof.
  intros w.
  apply (login_without_password (Some (JObj [("userId", JStr "guest")])) "guest" guest w);
    try reflexivity.
  by apply valid_keys_singleton.
Defined.

(** ** Listing, and listing after adding *)

Lemma query_lists c w Item :
  Item ∈ map snd (filter (fun entry => fst (fst entry) = c) (map_to_list (table w))) <->
  exists id, table w !! (c, id) = Some Item.
Proof.
  change (map snd ?l) with (snd <$> l). rewrite list_elem_of_fmap. split.
  - intros ([[c' i] Item'] & -> & Hin). apply list_elem_of_filter in Hin as [Hc Hin].
    cbn in Hc. subst c'. apply elem_of_map_to_list in Hin. by exists i.
  - intros [id Hid]. exists ((c, id), Item). split; [done|].
    apply list_elem_of_filter. split; [done|]. by apply elem_of_map_to_list.
Qed.

(** X12: ORDER_LIST answers with the records stored under context
    ["order"], and with no other, whatever [data] it is given; it asks the
    store one query and writes nothing. *)
Theorem getOrderList_lists (data : option value) (w : world) :
  exists Items,
    getOrderList data w =
      (Resolved (Json (JArr (map JObj Items))),
       with_request (QueryRequest TABLE_NAME (JStr "order")) w) /\
    forall Item, Item ∈ Items <-> exists id, table w !! ("order", id) = Some Item.
Proof.
  eexists. split; [unfold getOrderList; by rewrite bind_run, query_run|].
  intros Item. apply query_lists.
Qed.

Lemma order_of_key id data :
  get_field "id" (own_props data) = None ->
  get_field "context" (own_props data) = None ->
  id <> "" ->
  DocumentClient.key_of (DocumentClient.item_key (order_of id data)) = inr ("order", id).
Proof.
  intros Hid Hctx Hne. unfold DocumentClient.key_of, DocumentClient.item_key.
  cbn [key_context key_id]. rewrite order_of_id, order_of_context, Hid, Hctx.
  by rewrite (key_string_nonempty "order"), (key_string_nonempty id).
Qed.

Lemma item_of_key id data :
  get_field "id" (own_props data) = None ->
  get_field "context" (own_props data) = None ->
  id <> "" ->
  DocumentClient.key_of (DocumentClient.item_key (item_of id data)) = inr ("item", id).
Proof.
  intros Hid Hctx Hne.
  assert (get_field "id" (item_of id data) = Some (JStr id)) as Hi
    by (unfold item_of; by rewrite get_field_assign, Hid).
  assert (get_field "context" (item_of id data) = Some (JStr "item")) as Hc
    by (unfold item_of; by rewrite get_field_assign, Hctx).
  unfold DocumentClient.key_of, DocumentClient.item_key. cbn [key_context key_id].
  by rewrite Hi, Hc, (key_string_nonempty "item"), (key_string_nonempty id).
Qed.

(** X13: when the payload of ADD_ORDER has no [id] and no [context] and the
    store takes the record made of it, ADD_ORDER returns [{success: true}]
    and ORDER_LIST then contains the new order, with [orderStatus]
    ["OPEN"]. *)
Theorem createOrder_then_listed (data listing : option value) (w : world) :
  get_field "id" (own_props data) = None ->
  get_field "context" (own_props data) = None ->
  DocumentClient.accepts (refuses w) (order_of (Nanoid.next_id w) data) = true ->
  exists Items,
    fst (createOrder data w) = Resolved success /\
    fst (getOrderList listing (snd (createOrder data w))) =
      Resolved (Json (JArr (map JObj Items))) /\
    order_of (Nanoid.next_id w) data ∈ Items /\
    get_field "orderStatus" (order_of (Nanoid.next_id w) data) = Some (JStr "OPEN").
Proof.
  intros Hid Hctx Htaken.
  assert (createOrder data w =
            (Resolved success,
             with_table
               (<[("order", Nanoid.next_id w) := order_of (Nanoid.next_id w) data]> (table w))
               (with_request (PutRequest TABLE_NAME (order_of (Nanoid.next_id w) data))
                  (with_pool_offset (pool_offset w + 21)%nat w)))) as Hrun.
  { rewrite createOrder_run. cbn zeta.
    by rewrite (order_of_key _ _ Hid Hctx (next_id_nonempty w)), Htaken. }
  eexists. split; [by rewrite Hrun|].
  split; [unfold getOrderList; by rewrite bind_run, query_run|].
  split; [|apply get_field_set_prop_eq].
  apply query_lists. exists (Nanoid.next_id w).
  rewrite Hrun. cbn [snd with_table table]. apply lookup_insert_eq.
Qed.

Lemma createOrder_then_listed_witness :
  let data := Some (JObj [("title", JStr "T-Shirt"); ("price", JNum "10")]) in
  exists Items,
    fst (createOrder data seeded_world) = Resolved success /\
    fst (getOrderList None (snd (createOrder data seeded_world))) =
      Resolved (Json (JArr (map JObj Items))) /\
    order_of (Nanoid.next_id seeded_world) data ∈ Items /\
    get_field "orderStatus" (order_of (Nanoid.next_id seeded_world) data) = Some (JStr "OPEN").
Proof.
  intros data.
  apply (createOrder_then_listed data None seeded_world);
    [reflexivity | reflexivity | by vm_compute].
Defined.

(** X14: ADD_ORDER stores every property of its payload as it came, save
    [orderStatus]: the record handed to the store has, for every other key
    of the payload, the payload's value. *)
Theorem createOrder_keeps_payload (data : option value) (w : world) (k : string) (v : value) :
  get_field k (own_props data) = Some v ->
  k <> "orderStatus" ->
  exists order,
    requests (snd (createOrder data w)) = (requests w ++ [PutRequest TABLE_NAME order])%list /\
    get_field k order = Some v.
Proof.
  intros Hk Hne. exists (order_of (Nanoid.next_id w) data). split.
  - rewrite createOrder_run. cbn zeta.
    destruct (DocumentClient.key_of _); [done|]. by destruct (DocumentClient.accepts _ _).
  - unfold order_of. rewrite get_field_set_prop_ne by done.
    by rewrite get_field_assign, Hk.
Qed.

Lemma createOrder_keeps_payload_witness :
  let data := Some (JObj [("title", JStr "T-Shirt"); ("buyerName", JStr "X");
                          ("orderStatus", JStr "CLOSED")]) in
  exists order,
    requests (snd (createOrder data fresh_world)) =
      (requests fresh_world ++ [PutRequest TABLE_NAME order])%list /\
    get_field "buyerName" order = Some (JStr "X").
Proof.
  intros data.
  apply (createOrder_keeps_payload data fresh_world "buyerName" (JStr "X"));
    [reflexivity | discriminate].
Defined.

(** X15: when the payload of ADD_ITEM has no [id] and no [context] and the
    store takes the record made of it, ADD_ITEM resolves to [undefined],
    the item is stored under the generated id with every property of the
    payload at the payload's value, and ITEM_LIST then contains it. *)
Theorem addItem_then_listed (data listing : option value) (w : world) :
  get_field "id" (own_props data) = None ->
  get_field "context" (own_props data) = None ->
  DocumentClient.accepts (refuses w) (item_of (Nanoid.next_id w) data) = true ->
  exists Items,
    fst (addItem data w) = Resolved Undefined /\
    fst (getItemList listing (snd (addItem data w))) =
      Resolved (Json (JArr (map JObj Items))) /\
    item_of (Nanoid.next_id w) data ∈ Items /\
    table (snd (addItem data w)) !! ("item", Nanoid.next_id w) =
      Some (item_of (Nanoid.next_id w) data) /\
    forall k v, get_field k (own_props data) = Some v ->
                get_field k (item_of (Nanoid.next_id w) data) = Some v.
Proof.
  intros Hid Hctx Htaken.
  assert (table (snd (addItem data w)) !! ("item", Nanoid.next_id w) =
            Some (item_of (Nanoid.next_id w) data) /\
          fst (addItem data w) = Resolved Undefined) as [Hstored Hok].
  { rewrite addItem_unfold. cbn zeta.
    rewrite (item_of_key _ _ Hid Hctx (next_id_nonempty w)), Htaken.
    cbn [fst snd with_table table]. split; [apply lookup_insert_eq | done]. }
  eexists. split; [done|].
  split; [unfold getItemList; by rewrite bind_run, query_run|].
  split; [apply query_lists; by eexists|]. split; [done|].
  intros k v Hk. unfold item_of. by rewrite get_field_assign, Hk.
Qed.

Lemma addItem_then_listed_witness :
  let data := Some (JObj [("title", JStr "Cap"); ("price", JNum "5")]) in
  exists Items,
    fst (addItem data seeded_world) = Resolved Undefined /\
    fst (getItemList None (snd (addItem data seeded_world))) =
      Resolved (Json (JArr (map JObj Items))) /\
    item_of (Nanoid.next_id seeded_world) data ∈ Items /\
    table (snd (addItem data seeded_world)) !! ("item", Nanoid.next_id seeded_world) =
      Some (item_of (Nanoid.next_id seeded_world) data) /\
    forall k v, get_field k (own_props data) = Some v ->
                get_field k (item_of (Nanoid.next_id seeded_world) data) = Some v.
Proof.
  intros data.
  apply (addItem_then_listed data None seeded_world);
    [reflexivity | reflexivity | by vm_compute].
Defined.

(** ** The status of an order, further *)

Lemma status_operation_unfold operation :
  operation = completeOrder \/ operation = reopenOrder ->
  exists status, operation = set_orderStatus status.
Proof. intros [->| ->]; by eexists. Qed.

(** X16: COMPLETE_ORDER and REOPEN_ORDER on the id of an existing order
    touch nothing but the status of that order: its other attributes keep
    their values, and every other record of the table is as before. *)
Theorem status_update_frame (operation : option value -> M reply) (data : option value)
    (id : string) (w : world) (Item : list (string * value)) :
  operation = completeOrder \/ operation = reopenOrder ->
  get_prop data "id" = inr (Some (JStr id)) ->
  id <> "" ->
  table w !! ("order", id) = Some Item ->
  exists Item',
    table (snd (operation data w)) !! ("order", id) = Some Item' /\
    (forall k, k <> "orderStatus" -> get_field k Item' = get_field k Item) /\
    (forall key, key <> ("order", id) ->
                 table (snd (operation data w)) !! key = table w !! key).
Proof.
  intros Hop Hid Hne HItem.
  destruct (status_operation_unfold operation Hop) as [status ->].
  rewrite (set_orderStatus_run status data id w Hid Hne), HItem.
  cbn [snd with_table table DocumentClient.updated].
  eexists. split; [apply lookup_insert_eq|]. split.
  - intros k Hk. by rewrite get_field_set_prop_ne.
  - intros key Hkey. by rewrite lookup_insert_ne.
Qed.

Lemma status_update_frame_witness :
  exists Item',
    table (snd (completeOrder (Some (JObj [("id", JStr "o-1")])) one_order_world))
      !! ("order", "o-1") = Some Item' /\
    (forall k, k <> "orderStatus" -> get_field k Item' = get_field k open_order) /\
    (forall key, key <> ("order", "o-1") ->
                 table (snd (completeOrder (Some (JObj [("id", JStr "o-1")])) one_order_world))
                   !! key = table one_order_world !! key).
Proof.
  apply (status_update_frame completeOrder (Some (JObj [("id", JStr "o-1")])) "o-1"
           one_order_world open_order);
    [by left | reflexivity | discriminate | by vm_compute].
Defined.

(** X17: COMPLETE_ORDER followed by REOPEN_ORDER on an open order gives the
    order back as it was: every attribute, the status included, has its
    original value, and every other record is as before. *)
Theorem complete_then_reopen_restores (data : option value) (id : string) (w : world)
    (Item : list (string * value)) :
  get_prop data "id" = inr (Some (JStr id)) ->
  id <> "" ->
  table w !! ("order", id) = Some Item ->
  get_field "orderStatus" Item = Some (JStr "OPEN") ->
  let w2 := snd (reopenOrder data (snd (completeOrder data w))) in
  fst (completeOrder data w) = Resolved success /\
  fst (reopenOrder data (snd (completeOrder data w))) = Resolved success /\
  exists Item2,
    table w2 !! ("order", id) = Some Item2 /\
    (forall k, get_field k Item2 = get_field k Item) /\
    (forall key, key <> ("order", id) -> table w2 !! key = table w !! key).
Proof.
  intros Hid Hne HItem Hopen.
  rewrite completeOrder_unfold, reopenOrder_unfold. cbn zeta.
  rewrite (set_orderStatus_run "CLOSED" data id w Hid Hne), HItem. cbn [fst snd].
  rewrite (set_orderStatus_run "OPEN" data id _ Hid Hne). cbn [fst snd with_table table].
  rewrite !lookup_insert_eq. cbn [DocumentClient.updated].
  do 2 (split; [done|]). eexists. split; [reflexivity|]. split.
  - intros k. rewrite !get_field_set_prop.
    destruct (String.eqb_spec k "orderStatus") as [->|]; [by rewrite Hopen | done].
  - intros key Hkey. by rewrite !lookup_insert_ne.
Qed.

Lemma complete_then_reopen_restores_witness :
  let data := Some (JObj [("id", JStr "o-1")]) in
  let w2 := snd (reopenOrder data (snd (completeOrder data one_order_world))) in
  fst (completeOrder data one_order_world) = Resolved success /\
  fst (reopenOrder data (snd (completeOrder data one_order_world))) = Resolved success /\
  exists Item2,
    table w2 !! ("order", "o-1") = Some Item2 /\
    (forall k, get_field k Item2 = get_field k open_order) /\
    (forall key, key <> ("order", "o-1") -> table w2 !! key = table one_order_world !! key).
Proof.
  intros data.
  apply (complete_then_reopen_restores data "o-1" one_order_world open_order);
    [reflexivity | discriminate | by vm_compute | reflexivity].
Defined.

(** X18: when [data.id] is not a non-empty string ([data] missing or null,
    no [id], a number, the empty string), COMPLETE_ORDER and REOPEN_ORDER
    reject and leave the table as it was: no record is made or changed. *)
Theorem status_update_bad_id (operation : option value -> M reply) (data : option value)
    (w : world) :
  operation = completeOrder \/ operation = reopenOrder ->
  (forall i, get_prop data "id" = inr (Some (JStr i)) -> i = "") ->
  exists e,
    fst (operation data w) = Rejected e /\
    table (snd (operation data w)) = table w.
Proof.
  intros Hop Hbad.
  destruct (status_operation_unfold operation Hop) as [status ->].
  rewrite set_orderStatus_unfold.
  destruct (get_prop data "id") as [e|id]; [by exists e|]. cbn zeta.
  destruct (DocumentClient.key_string id) as [e|i] eqn:Hi; [by exists e|].
  apply key_string_inr in Hi as [-> Hne]. by destruct (Hne (Hbad i eq_refl)).
Qed.

Lemma status_update_bad_id_witness :
  exists e,
    fst (reopenOrder (Some (JObj [("id", JNum "7")])) one_order_world) = Rejected e /\
    table (snd (reopenOrder (Some (JObj [("id", JNum "7")])) one_order_world)) =
      table one_order_world.
Proof.
  apply (status_update_bad_id reopenOrder (Some (JObj [("id", JNum "7")])) one_order_world);
    [by right | discriminate].
Defined.

(** ** Seeding *)

Section Seeding.

Implicit Types (t : gmap (string * string) (list (string * value)))
  (l : list (list (string * value))).

Lemma seed_lookup_other t l k :
  k ∉ map seed_key l -> seed t l !! k = t !! k.
Proof.
  revert t. induction l as [|Item l IH]; intros t Hk; [done|].
  cbn in Hk. apply not_elem_of_cons in Hk as [Hne Hk].
  unfold seed in *. cbn. rewrite IH by done. by rewrite lookup_insert_ne.
Qed.

Lemma seed_lookup t l Item :
  NoDup (map seed_key l) -> Item ∈ l -> seed t l !! seed_key Item = Some Item.
Proof.
  revert t. induction l as [|Item' l IH]; intros t Hnd Hin; [by apply elem_of_nil in Hin|].
  cbn in Hnd. apply NoDup_cons in Hnd as [Hfresh Hnd].
  apply elem_of_cons in Hin as [->|Hin].
  - change (seed t (Item' :: l)) with (seed (<[seed_key Item' := Item']> t) l).
    rewrite seed_lookup_other by done. apply lookup_insert_eq.
  - change (seed t (Item' :: l)) with (seed (<[seed_key Item' := Item']> t) l).
    by apply IH.
Qed.

Lemma seed_idempotent t l :
  NoDup (map seed_key l) -> seed (seed t l) l = seed t l.
Proof.
  intros Hnd. apply map_eq. intros k.
  destruct (decide (k ∈ map seed_key l)) as [Hin|Hout].
  - change (map seed_key l) with (seed_key <$> l) in Hin.
    apply list_elem_of_fmap in Hin as (Item & -> & Hin).
    by rewrite !seed_lookup.
  - by rewrite !seed_lookup_other.
Qed.

Lemma init_table w : table (snd (init w)) = seed (table w) seed_items.
Proof. reflexivity. Qed.

Lemma seed_keys_distinct : NoDup (map seed_key seed_items).
Proof. apply (bool_decide_unpack _). by vm_compute. Qed.

(** X20: INIT resolves to [undefined] and writes the seven seed records,
    each under its own key and over whatever that key held; it touches no
    other record of the table, and running it a second time changes
    nothing. *)
Theorem init_reseeds (w : world) :
  fst (init w) = Resolved Undefined /\
  (forall Item, Item ∈ seed_items -> table (snd (init w)) !! seed_key Item = Some Item) /\
  (forall k, k ∉ map seed_key seed_items -> table (snd (init w)) !! k = table w !! k) /\
  table (snd (init (snd (init w)))) = table (snd (init w)).
Proof.
  split; [reflexivity|]. rewrite !init_table.
  split; [intros Item; apply seed_lookup, seed_keys_distinct|].
  split; [intros k; apply seed_lookup_other|].
  apply seed_idempotent, seed_keys_distinct.
Qed.

End Seeding.

(** ** Adding under a key the store refuses *)

Lemma item_of_id id data :
  get_field "id" (item_of id data) =
  match get_field "id" (own_props data) with
  | Some v => Some v
  | None => Some (JStr id)
  end.
Proof. unfold item_of. by rewrite get_field_assign. Qed.

(** X21: when the payload of ADD_ORDER or ADD_ITEM brings an [id] that is
    not a non-empty string (a number, [null], the empty string), the store
    refuses the record: the operation rejects and the table is as it
    was. *)
Theorem add_with_bad_id_rejected (operation : option value -> M reply) (data : option value)
    (v : value) (w : world) :
  operation = createOrder \/ operation = addItem ->
  get_field "id" (own_props data) = Some v ->
  (forall s, v = JStr s -> s = "") ->
  exists e,
    fst (operation data w) = Rejected e /\
    table (snd (operation data w)) = table w.
Proof.
  intros Hop Hid Hbad.
  assert (exists e, DocumentClient.key_string (Some v) = inl e) as [e He].
  { destruct (DocumentClient.key_string (Some v)) as [e|s] eqn:Hs; [by eexists|].
    apply key_string_inr in Hs as [[= ->] Hne]. by destruct (Hne (Hbad s eq_refl)). }
  destruct Hop as [-> | ->].
  - rewrite createOrder_run. cbn zeta.
    unfold DocumentClient.key_of, DocumentClient.item_key. cbn [key_context key_id].
    rewrite order_of_id, Hid, He.
    destruct (DocumentClient.key_string (get_field "context" _)); eexists; split; reflexivity.
  - rewrite addItem_unfold. cbn zeta.
    unfold DocumentClient.key_of, DocumentClient.item_key. cbn [key_context key_id].
    rewrite item_of_id, Hid, He.
    destruct (DocumentClient.key_string (get_field "context" _)); eexists; split; reflexivity.
Qed.

Lemma add_with_bad_id_rejected_witness :
  exists e,
    fst (addItem (Some (JObj [("id", JNum "7"); ("title", JStr "Cap")])) seeded_world) =
      Rejected e /\
    table (snd (addItem (Some (JObj [("id", JNum "7"); ("title", JStr "Cap")])) seeded_world)) =
      table seeded_world.
Proof.
  apply (add_with_bad_id_rejected addItem
           (Some (JObj [("id", JNum "7"); ("title", JStr "Cap")])) (JNum "7") seeded_world);
    [by right | reflexivity | discriminate].
Defined.
